(** * Shipping calculator: quote engine and operational alerts

    A shallow embedding of [App.py] (the Streamlit calculator) and of the
    feature encodings it shares with [modelo.py] (the training script).

    Python's [float] is IEEE 754 binary64 with round-to-nearest-even; it is
    modelled by Rocq's primitive [float], which is the same format with the
    same rounding, so every arithmetic expression below is the source's
    expression, literal for literal.  Python's [int] is [Z].  Exceptions
    are values of [excepcion] threaded through the [resultado] monad. *)

From Stdlib Require Import ZArith Reals Lra Lia Floats String List Bool.
Import ListNotations.

Set Warnings "-inexact-float".

(* ================================================================= *)
(** ** Python values, exceptions and dictionaries *)

Module Py.

(** The exceptions the modelled code can raise. *)
Inductive excepcion : Type :=
| AttributeError              (* attribute access on [None] *)
| KeyError (k : string)       (* subscript of a dict with an absent key *)
| OtherError (msg : string).  (* any other exception, with its text *)

(** [str(e)] *)
Definition texto (e : excepcion) : string :=
  match e with
  | AttributeError => "'NoneType' object has no attribute 'predict_proba'"
  | KeyError k => k
  | OtherError msg => msg
  end.

Inductive resultado (A : Type) : Type :=
| Ok (a : A)
| Raise (e : excepcion).

Arguments Ok {A} a.
Arguments Raise {A} e.

Definition bind {A B : Type} (r : resultado A) (k : A -> resultado B) : resultado B :=
  match r with
  | Ok a => k a
  | Raise e => Raise e
  end.

Definition is_ok {A : Type} (r : resultado A) : bool :=
  match r with
  | Ok _ => true
  | Raise _ => false
  end.

(** A [dict] with string keys, in insertion order. *)
Definition dict (V : Type) : Type := list (string * V).

(** [d[k]]: the value, or [KeyError k]. *)
Fixpoint getitem {V : Type} (d : dict V) (k : string) : resultado V :=
  match d with
  | [] => Raise (KeyError k)
  | (k', v) :: d' => if String.eqb k k' then Ok v else getitem d' k
  end.

(** [d.keys()] *)
Definition keys {V : Type} (d : dict V) : list string := map fst d.

(** [float(n)] for an [int] [n]: the nearest binary64, ties to even.  For
    an [int] beyond the binary64 range Python raises [OverflowError] where
    this gives an infinity; it is used below only on ranges where the
    conversion is exact. *)
Definition float_of_int (n : Z) : float :=
  SF2Prim (binary_normalize prec emax n 0 false).

End Py.

Import Py.

Notation "x <- r ;; k" := (bind r (fun x => k))
  (at level 61, r at next level, right associativity).

(** Python's [a > b] on floats. *)
Notation "a >? b" := (PrimFloat.ltb b a) (at level 70, no associativity) : float_scope.

(* ================================================================= *)
(** ** Business configuration (App.py, lines 33-53) *)

Record multiplicadores : Type := { tiempo : float; costo : float }.

Definition MODALIDADES : dict multiplicadores :=
  [ ("económico"%string, {| tiempo := 1.3; costo := 0.8 |});
    ("estándar"%string,  {| tiempo := 1.0; costo := 1.0 |});
    ("express"%string,   {| tiempo := 0.7; costo := 1.5 |}) ].

Definition PERFILES : dict multiplicadores :=
  [ ("urgente"%string,   {| tiempo := 0.9; costo := 1.2 |});
    ("económico"%string, {| tiempo := 1.1; costo := 0.8 |}) ].

Definition FEATURES : list string :=
  [ "Distancia_KM"; "Trafico_Score"; "Riesgo_Clima"; "Ratio_Inv";
    "Waiting_Time"; "Temperature"; "Humidity"; "Traffic_Num" ]%string.

(** The three traffic states offered by both select boxes. *)
Inductive Trafico : Type := Clear | Detour | Heavy.

(** One request's features: the dict [datos_envio], one field per key of
    [FEATURES].  The distance is held as the float that
    [float(datos_envio["Distancia_KM"])] reads back. *)
Record datos_envio : Type := {
  Distancia_KM : float;
  Trafico_Score : Z;
  Riesgo_Clima : Z;
  Ratio_Inv : float;
  Waiting_Time : Z;
  Temperature : Z;
  Humidity : Z;
  Traffic_Num : Z
}.

(** The classifier is opaque: [predict_proba m x] is
    [float(m.predict_proba(df)[0][1])], or the exception it raises. *)
Record clasificador : Type := {
  predict_proba : datos_envio -> resultado float
}.

(* ================================================================= *)
(** ** Auxiliary functions (App.py, lines 58-96) *)

Open Scope float_scope.

Definition calcular_tiempo_base (distancia_km : float) : float :=
  (distancia_km / 50.0) + 2.0.

Definition calcular_costo_base (distancia_km : float) (peso_kg : float) : float :=
  5.0 + (0.5 * distancia_km) + (1.0 * peso_kg).

(** The default of [peso_kg]. *)
Definition peso_kg_default : float := 10.0.

Inductive Riesgo : Type := alto | medio | bajo.

Record prediccion : Type := {
  prob_retraso : float;
  riesgo : Riesgo;
  tiempo_horas : float;
  costo_usd : float
}.

(** Lines 72-83: the risk tier and the tier's adjustment of the base values. *)
Definition ajuste_riesgo (prob_retraso tiempo_base costo_base : float)
  : float * float * Riesgo :=
  if prob_retraso >? 0.6 then
    (tiempo_base * 1.5, costo_base * 1.30, alto)
  else if prob_retraso >? 0.4 then
    (tiempo_base * 1.2, costo_base * 1.15, medio)
  else
    (tiempo_base, costo_base, bajo).

(** [modelo.predict_proba] on what [load_model] returned: on [None] the
    attribute access raises. *)
Definition llamar_modelo (modelo : option clasificador) (datos : datos_envio)
  : resultado float :=
  match modelo with
  | None => Raise AttributeError
  | Some m => predict_proba m datos
  end.

Definition predecir_envio (modelo : option clasificador) (datos : datos_envio)
    (modalidad perfil : string) : resultado prediccion :=
  prob <- llamar_modelo modelo datos ;;
  let distancia := Distancia_KM datos in
  let tiempo_base := calcular_tiempo_base distancia in
  let costo_base := calcular_costo_base distancia peso_kg_default in
  let '(tiempo_estimado, costo_estimado, nivel) :=
    ajuste_riesgo prob tiempo_base costo_base in
  m1 <- getitem MODALIDADES modalidad ;;
  let tiempo_estimado := tiempo_estimado * tiempo m1 in
  m2 <- getitem MODALIDADES modalidad ;;
  let costo_estimado := costo_estimado * costo m2 in
  p1 <- getitem PERFILES perfil ;;
  let tiempo_estimado := tiempo_estimado * tiempo p1 in
  p2 <- getitem PERFILES perfil ;;
  let costo_estimado := costo_estimado * costo p2 in
  Ok {| prob_retraso := prob;
        riesgo := nivel;
        tiempo_horas := tiempo_estimado;
        costo_usd := costo_estimado |}.

(* ================================================================= *)
(** ** Model loading (App.py, lines 20-28) *)

(** What the page shows: messages, and the comparator's table (its rows
    keep the numbers; their formatting and the clock are left out). *)
Inductive elemento : Type :=
| st_error (msg : string)
| st_warning (msg : string)
| st_success (msg : string)
| st_dataframe (resultados : list (string * prediccion)).

(** [load_model]: [carga] is the outcome of [joblib.load(path)].  On failure
    the error is shown and [None] is returned. *)
Definition load_model (carga : resultado clasificador)
  : option clasificador * list elemento :=
  match carga with
  | Ok m => (Some m, [])
  | Raise e => (None, [st_error ("❌ Error cargando modelo: " ++ texto e)])
  end.

(* ================================================================= *)
(** ** Tab 1: the comparator (App.py, lines 106-150) *)

Definition trafico_score (trafico : Trafico) : Z :=
  match trafico with Clear => 1 | Detour => 2 | Heavy => 3 end.

Definition trafico_num (trafico : Trafico) : Z :=
  match trafico with Clear => 0 | Detour => 1 | Heavy => 2 end.

Definition riesgo_clima (temp hum : Z) : Z :=
  if ((temp >? 30) || (hum >? 80))%Z then 1%Z else 0%Z.

(** The widgets' values for one run of the page. *)
Record formulario : Type := {
  distancia_km : Z;
  waiting : Z;
  trafico : Trafico;
  temp : Z;
  hum : Z;
  inv_ratio : float;
  perfil : string;
  calcular : bool  (* the button "Calcular opciones" *)
}.

(** Lines 126-135. *)
Definition construir_datos (f : formulario) : datos_envio :=
  {| Distancia_KM := float_of_int (distancia_km f);
     Trafico_Score := trafico_score (trafico f);
     Riesgo_Clima := riesgo_clima (temp f) (hum f);
     Ratio_Inv := inv_ratio f;
     Waiting_Time := waiting f;
     Temperature := temp f;
     Humidity := hum f;
     Traffic_Num := trafico_num (trafico f) |}.

(** The loop of lines 137-148, over the keys still to visit: one row per
    modality; an exception leaves the loop with no row kept. *)
Fixpoint filas (modelo : option clasificador) (datos : datos_envio)
    (perfil : string) (modalidades : list string)
  : resultado (list (string * prediccion)) :=
  match modalidades with
  | [] => Ok []
  | modalidad :: resto =>
      out <- predecir_envio modelo datos modalidad perfil ;;
      siguientes <- filas modelo datos perfil resto ;;
      Ok ((modalidad, out) :: siguientes)
  end.

(** Lines 125-150: nothing is drawn when the guard
    [modelo and st.button(...)] is false; otherwise the table.  A loaded
    classifier is taken to be true in the guard, as a fitted one is. *)
Definition tab1 (modelo : option clasificador) (f : formulario)
  : resultado (list elemento) :=
  match modelo with
  | Some _ =>
      if calcular f then
        resultados <- filas modelo (construir_datos f) (perfil f) (keys MODALIDADES) ;;
        Ok [st_dataframe resultados]
      else Ok []
  | None => Ok []
  end.

(* ================================================================= *)
(** ** Tab 2: the alerts (App.py, lines 155-189) *)

Definition alerta_trafico (trafico_alert : Trafico) : elemento :=
  match trafico_alert with
  | Heavy => st_warning "🚦 Tráfico pesado: riesgo alto de retraso."
  | _ => st_success "✅ Tráfico en condiciones normales."
  end.

Definition alerta_clima (temp_alert hum_alert : Z) : elemento :=
  if ((temp_alert >? 30) || (hum_alert >? 80))%Z
  then st_warning "🌧️ Clima adverso: añadir buffer de tiempo."
  else st_success "✅ Clima sin riesgos.".

Definition alerta_inventario (inv_ratio_alert : float) : elemento :=
  if inv_ratio_alert <? 0.5
  then st_error "📦 Inventario insuficiente: riesgo de quiebre de stock."
  else st_success "✅ Inventario en rango seguro.".

Definition alerta_espera (waiting_alert : Z) : elemento :=
  if (waiting_alert >? 60)%Z
  then st_error "⏱️ Tiempo de espera elevado: revisar operaciones."
  else st_success "✅ Tiempo de espera controlado.".

(** The four messages of lines 171-189, in the order they are shown. *)
Definition tab2 (trafico_alert : Trafico) (temp_alert hum_alert : Z)
    (inv_ratio_alert : float) (waiting_alert : Z) : list elemento :=
  [ alerta_trafico trafico_alert;
    alerta_clima temp_alert hum_alert;
    alerta_inventario inv_ratio_alert;
    alerta_espera waiting_alert ].

(** One run of the page: the model is loaded, then tab 1 and tab 2 are
    drawn.  An exception out of tab 1 ends the run: what was drawn before
    it stays, with the exception. *)
Definition pagina (carga : resultado clasificador) (f : formulario)
    (trafico_alert : Trafico) (temp_alert hum_alert : Z)
    (inv_ratio_alert : float) (waiting_alert : Z)
  : list elemento * option excepcion :=
  let '(modelo, avisos) := load_model carga in
  match tab1 modelo f with
  | Ok tabla =>
      (avisos ++ tabla
         ++ tab2 trafico_alert temp_alert hum_alert inv_ratio_alert waiting_alert,
       None)
  | Raise e => (avisos, Some e)
  end.

(* ================================================================= *)
(** ** Feature engineering of the training script (modelo.py, lines 23-50)

    The columns the script derives, read on one row of the dataset. *)

(** The labels of the three traffic states, as the select boxes and the
    dataset's [Traffic_Status] column spell them. *)
Definition etiqueta (t : Trafico) : string :=
  match t with Clear => "Clear" | Detour => "Detour" | Heavy => "Heavy" end.

(** [Series.map(d)] on one cell: the value of the key, or [None] (NaN)
    when the dict does not have it. *)
Definition serie_map {V : Type} (d : dict V) (k : string) : option V :=
  match getitem d k with
  | Ok v => Some v
  | Raise _ => None
  end.

(** Line 24. *)
Definition traffic_scores : dict Z :=
  [ ("Clear"%string, 1%Z); ("Detour"%string, 2%Z); ("Heavy"%string, 3%Z) ].

(** The dict literal of line 36. *)
Definition traffic_nums : dict Z :=
  [ ("Clear"%string, 0%Z); ("Detour"%string, 1%Z); ("Heavy"%string, 2%Z) ].

(** Lines 25 and 36: the two traffic columns of a row. *)
Definition fila_Trafico_Score (traffic_status : string) : option Z :=
  serie_map traffic_scores traffic_status.

Definition fila_Traffic_Num (traffic_status : string) : option Z :=
  serie_map traffic_nums traffic_status.

(** Lines 28-30: the column starts at 0 and is set to 1 where the
    temperature is above 30, then where the humidity is above 80. *)
Definition fila_Riesgo_Clima (temperature humidity : float) : Z :=
  let r := 0%Z in
  let r := if (temperature >? 30)%float then 1%Z else r in
  let r := if (humidity >? 80)%float then 1%Z else r in
  r.

(** Line 33: the demand forecast with its zeros replaced by 1, then the
    division. *)
Definition replace_0_1 (x : float) : float :=
  if (x =? 0)%float then 1%float else x.

Definition fila_Ratio_Inv (inventory_level demand_forecast : float) : float :=
  (inventory_level / replace_0_1 demand_forecast)%float.

(** Lines 41-50. *)
Definition variables : list string :=
  [ "Distancia_KM"; "Trafico_Score"; "Riesgo_Clima"; "Ratio_Inv";
    "Waiting_Time"; "Temperature"; "Humidity"; "Traffic_Num" ]%string.

Close Scope float_scope.

(* ================================================================= *)
(** ** The quote engine as the specification words it

    The tier and its two multipliers as functions of the probability
    alone, written from the specification's thresholds; the theorems
    compare them with [ajuste_riesgo]. *)

Definition riskTier (p : float) : Riesgo :=
  if (p >? 0.6)%float then alto
  else if ((0.4 <? p) && (p <=? 0.6))%float then medio
  else bajo.

Definition riskTimeMultiplier (p : float) : float :=
  if (p >? 0.6)%float then 1.5%float
  else if ((0.4 <? p) && (p <=? 0.6))%float then 1.2%float
  else 1.0%float.

Definition riskCostMultiplier (p : float) : float :=
  if (p >? 0.6)%float then 1.30%float
  else if ((0.4 <? p) && (p <=? 0.6))%float then 1.15%float
  else 1.0%float.

(** The alert levels of the specification. *)
Inductive Estado : Type := ok | warning | critical.

Definition estado (e : elemento) : option Estado :=
  match e with
  | st_success _ => Some ok
  | st_warning _ => Some warning
  | st_error _ => Some critical
  | st_dataframe _ => None
  end.

(* ================================================================= *)
(** * Binary64 arithmetic

    What the proofs need of IEEE 754 binary64: every operation returns the
    float nearest to the exact result (ties to even), rounding is monotone,
    and the comparisons are the order of the values. *)

Module B64.

Local Open Scope R_scope.

(** ** Definitions *)

Definition pow2 (e : Z) : R := powerRZ 2 e.

Definition loc_ok (u : R) (m : Z) (l : location) : Prop :=
  match l with
  | loc_Exact => u = IZR m
  | loc_Inexact Lt => IZR m < u < IZR m + /2
  | loc_Inexact Eq => u = IZR m + /2
  | loc_Inexact Gt => IZR m + /2 < u < IZR m + 1
  end.

Definition rec_ok (u : R) (mrs : shr_record) : Prop :=
  (0 <= shr_m mrs)%Z /\ loc_ok u (shr_m mrs) (loc_of_shr_record mrs).

Definition grid (v : R) (E : Z) : Prop :=
  v < pow2 (E + 53) /\ (E = (-1074)%Z \/ ((-1074 < E)%Z /\ pow2 (E + 52) <= v)).

Definition rne (u : R) (n : Z) : Prop :=
  IZR n - /2 <= u <= IZR n + /2 /\
  (u = IZR n - /2 -> Z.even n = true) /\
  (u = IZR n + /2 -> Z.even n = true).

Definition xval (x : spec_float) : R :=
  match x with
  | S754_finite false m e => IZR (Zpos m) * pow2 e
  | S754_infinity false => pow2 1024
  | _ => 0
  end.

Definition nonneg (x : spec_float) : bool :=
  match x with
  | S754_zero _ => true
  | S754_finite s m e => negb s && bounded prec emax m e
  | S754_infinity s => negb s
  | S754_nan => false
  end.

Definition rounds (v : R) (r : spec_float) : Prop :=
  nonneg r = true /\
  exists E n, grid v E /\ rne (v / pow2 E) n /\
              xval r = Rmin (IZR n * pow2 E) (pow2 1024).

Definition posfin (x : spec_float) : bool :=
  match x with
  | S754_finite false m e => bounded prec emax m e
  | _ => false
  end.

Definition nnfin (x : spec_float) : bool :=
  match x with
  | S754_zero _ => true
  | S754_finite false m e => bounded prec emax m e
  | _ => false
  end.

Definition with_sign (s : bool) (r : spec_float) : spec_float :=
  match r with
  | S754_zero _ => S754_zero s
  | S754_infinity _ => S754_infinity s
  | S754_nan => S754_nan
  | S754_finite _ m e => S754_finite s m e
  end.

Definition one64 : spec_float := S754_finite false 4503599627370496 (-52).

Definition fval (x : float) : R := xval (Prim2SF x).

Definition nn (x : float) : Prop := nonneg (Prim2SF x) = true.

Definition pf (c : float) : Prop := posfin (Prim2SF c) = true.

(** [fle x y]: [0 <= x <= y] as Python compares floats. *)
Definition fle (x y : float) : Prop := nn x /\ nn y /\ fval x <= fval y.

(** [vale x v]: [x] is a finite non-negative float of value [v]. *)
Definition vale (x : float) (v : R) : Prop :=
  nnfin (Prim2SF x) = true /\ fval x = v.

(** ** Powers of two and digits *)

Lemma pow2_pos e : 0 < pow2 e.
Proof. apply powerRZ_lt; lra. Qed.

Lemma pow2_add a b : pow2 (a + b) = pow2 a * pow2 b.
Proof. apply powerRZ_add; lra. Qed.

Lemma pow2_0 : pow2 0 = 1.
Proof. reflexivity. Qed.

Lemma pow2_1 : pow2 1 = 2.
Proof. unfold pow2; simpl; lra. Qed.

Lemma pow2_succ e : pow2 (e + 1) = 2 * pow2 e.
Proof. rewrite pow2_add, pow2_1; lra. Qed.

Lemma pow2_pred e : pow2 (e - 1) = pow2 e / 2.
Proof.
  replace e with ((e - 1) + 1)%Z at 2 by lia.
  rewrite pow2_succ; lra.
Qed.

Lemma pow2_sub a b : pow2 (a - b) = pow2 a / pow2 b.
Proof.
  replace a with ((a - b) + b)%Z at 2 by lia.
  rewrite pow2_add. field. apply Rgt_not_eq, pow2_pos.
Qed.

Lemma pow2_IZR k : (0 <= k)%Z -> pow2 k = IZR (2 ^ k).
Proof.
  intros Hk. pattern k. apply natlike_ind; trivial.
  intros x Hx IH. unfold Z.succ. rewrite pow2_succ, IH, Z.pow_add_r by lia.
  rewrite Z.pow_1_r, mult_IZR. ring.
Qed.

Lemma pow2_le a b : (a <= b)%Z -> pow2 a <= pow2 b.
Proof.
  intros H. replace b with (a + (b - a))%Z by lia.
  rewrite pow2_add, (pow2_IZR (b - a)) by lia.
  assert (1 <= IZR (2 ^ (b - a))).
  { apply IZR_le. assert (0 < 2 ^ (b - a))%Z by (apply Z.pow_pos_nonneg; lia). lia. }
  pose proof (pow2_pos a). nra.
Qed.

Lemma pow2_lt a b : (a < b)%Z -> pow2 a < pow2 b.
Proof.
  intros H. apply Rlt_le_trans with (pow2 (a + 1)).
  - rewrite pow2_succ. pose proof (pow2_pos a). lra.
  - apply pow2_le. lia.
Qed.

Lemma pow2_lt_inv a b : pow2 a < pow2 b -> (a < b)%Z.
Proof.
  intros H. destruct (Z_lt_le_dec a b) as [|Hle]; trivial.
  apply pow2_le in Hle. lra.
Qed.

Lemma pow2_le_inv a b : pow2 a <= pow2 b -> (a <= b)%Z.
Proof.
  intros H. destruct (Z_lt_le_dec b a) as [Hlt|]; trivial.
  apply pow2_lt in Hlt. lra.
Qed.

(** digits *)
Lemma digits2_size m : digits2_pos m = Pos.size m.
Proof. induction m; simpl; congruence. Qed.

Lemma digits2_bounds m :
  pow2 (Zpos (digits2_pos m) - 1) <= IZR (Zpos m) < pow2 (Zpos (digits2_pos m)).
Proof.
  rewrite digits2_size.
  rewrite !pow2_IZR by lia.
  pose proof (Pos.size_gt m) as Hgt. pose proof (Pos.size_le m) as Hle.
  split.
  - apply IZR_le.
    assert (2 ^ Zpos (Pos.size m) <= 2 * Zpos m)%Z.
    { change (2 * Zpos m)%Z with (Zpos m~0). rewrite <- Pos2Z.inj_pow. apply Pos2Z.pos_le_pos. exact Hle. }
    replace (Zpos (Pos.size m)) with ((Zpos (Pos.size m) - 1) + 1)%Z in H by lia.
    rewrite Z.pow_add_r in H by lia. lia.
  - apply IZR_lt. rewrite <- Pos2Z.inj_pow. apply Pos2Z.pos_lt_pos. exact Hgt.
Qed.

Lemma IZR_xO p : IZR (Zpos p~0) = 2 * IZR (Zpos p).
Proof. rewrite Pos2Z.inj_xO, mult_IZR. reflexivity. Qed.

Lemma IZR_xI p : IZR (Zpos p~1) = 2 * IZR (Zpos p) + 1.
Proof. rewrite Pos2Z.inj_xI, plus_IZR, mult_IZR. reflexivity. Qed.

Lemma rec_ok_of_loc u m l :
  (0 <= m)%Z -> loc_ok u m l -> rec_ok u (shr_record_of_loc m l).
Proof.
  intros Hm H. split.
  - destruct l as [|[]]; exact Hm.
  - destruct l as [|[]]; exact H.
Qed.

Lemma shr_1_ok u mrs : rec_ok u mrs -> rec_ok (u / 2) (shr_1 mrs).
Proof.
  destruct mrs as [m r s]. unfold rec_ok. cbn [shr_m]. intros [Hm H].
  destruct m as [|[p|p|]|p]; try lia;
    destruct r, s;
    cbn [shr_1 shr_m loc_of_shr_record loc_ok orb] in *;
    (split; [lia|]);
    rewrite ?(IZR_xO p), ?(IZR_xI p) in *; lra.
Qed.

Lemma iter_shr_1_ok p : forall u mrs,
  rec_ok u mrs -> rec_ok (u / pow2 (Zpos p)) (iter_pos shr_1 p mrs).
Proof.
  induction p as [p IH|p IH|]; intros u mrs H; cbn [iter_pos].
  - apply shr_1_ok, IH, IH in H.
    replace (u / pow2 (Zpos p~1)) with (u / 2 / pow2 (Zpos p) / pow2 (Zpos p)); trivial.
    rewrite Pos2Z.inj_xI.
    replace (2 * Zpos p + 1)%Z with (Zpos p + Zpos p + 1)%Z by lia.
    rewrite !pow2_add, pow2_1. field. apply Rgt_not_eq, pow2_pos.
  - apply IH, IH in H.
    replace (u / pow2 (Zpos p~0)) with (u / pow2 (Zpos p) / pow2 (Zpos p)); trivial.
    rewrite Pos2Z.inj_xO.
    replace (2 * Zpos p)%Z with (Zpos p + Zpos p)%Z by lia.
    rewrite !pow2_add. field. apply Rgt_not_eq, pow2_pos.
  - apply shr_1_ok in H. rewrite pow2_1. exact H.
Qed.

(** [shr]: moving a value from the grid [2^e] to the coarser grid [2^(e+n)]. *)
Lemma shr_ok v mrs e n :
  rec_ok (v / pow2 e) mrs ->
  let '(mrs', e') := shr mrs e n in
  e' = Z.max e (e + n) /\ rec_ok (v / pow2 e') mrs'.
Proof.
  intros H. destruct n as [|p|p]; cbn [shr].
  - split; [lia|]. exact H.
  - split; [lia|].
    apply (iter_shr_1_ok p) in H.
    rewrite pow2_add.
    replace (v / (pow2 e * pow2 (Zpos p))) with (v / pow2 e / pow2 (Zpos p)); trivial.
    field. split; apply Rgt_not_eq, pow2_pos.
  - split; [lia|]. exact H.
Qed.

(** ** binary64 parameters *)

Lemma fexp64 e : fexp prec emax e = Z.max (e - 53) (-1074).
Proof. reflexivity. Qed.

Lemma grid_mono v1 v2 E1 E2 :
  grid v1 E1 -> grid v2 E2 -> v1 <= v2 -> (E1 <= E2)%Z.
Proof.
  intros [H1 H1'] [H2 H2'] Hv.
  destruct (Z_lt_le_dec E2 E1) as [Hlt|]; trivial.
  destruct H1' as [->|[_ H1']].
  - destruct H2' as [->|[? _]]; lia.
  - assert (pow2 (E2 + 53) <= pow2 (E1 + 52)) by (apply pow2_le; lia). lra.
Qed.

Lemma rne_mono u1 u2 n1 n2 :
  rne u1 n1 -> rne u2 n2 -> u1 <= u2 -> (n1 <= n2)%Z.
Proof.
  intros (B1 & L1 & U1) (B2 & L2 & U2) Hu.
  destruct (Z_lt_le_dec n2 n1) as [Hlt|]; trivial.
  assert (Hz : (n2 + 1 <= n1)%Z) by lia. apply IZR_le in Hz. rewrite plus_IZR in Hz.
  assert (E1 : u1 = IZR n1 - /2) by lra.
  assert (E2 : u2 = IZR n2 + /2) by lra.
  assert (En : IZR n1 = IZR n2 + 1) by lra.
  rewrite <- plus_IZR in En. apply eq_IZR in En.
  specialize (L1 E1). specialize (U2 E2). subst n1.
  rewrite Z.even_add in L1. rewrite U2 in L1. discriminate.
Qed.

Lemma rne_of_loc u m l : loc_ok u m l -> rne u (round_nearest_even m l).
Proof.
  unfold rne. destruct l as [|[]]; cbn [loc_ok round_nearest_even]; intros H.
  - subst u. repeat split; intros; lra.
  - destruct (Z.even m) eqn:Ev.
    + subst u. repeat split; intros; trivial; lra.
    + rewrite plus_IZR. subst u. repeat split; intros; try lra.
      rewrite Z.even_add, Ev. reflexivity.
  - repeat split; intros; lra.
  - rewrite plus_IZR. repeat split; intros; lra.
Qed.

Lemma rne_upper u n k : rne u n -> u < IZR k -> (n <= k)%Z.
Proof.
  intros (B & _) H. destruct (Z_lt_le_dec k n) as [Hlt|]; trivial.
  assert (Hz : (k + 1 <= n)%Z) by lia. apply IZR_le in Hz. rewrite plus_IZR in Hz. lra.
Qed.

Lemma rne_lower u n k : rne u n -> IZR k <= u -> (k <= n)%Z.
Proof.
  intros (B & _) H. destruct (Z_lt_le_dec n k) as [Hlt|]; trivial.
  assert (Hz : (n + 1 <= k)%Z) by lia. apply IZR_le in Hz. rewrite plus_IZR in Hz. lra.
Qed.

Lemma div_pow2_lt v E k : v < pow2 (E + k) -> v / pow2 E < pow2 k.
Proof.
  intros H. rewrite pow2_add in H. pose proof (pow2_pos E).
  apply Rmult_lt_reg_r with (pow2 E); trivial.
  replace (v / pow2 E * pow2 E) with v by (field; lra). lra.
Qed.

Lemma div_pow2_le v E k : pow2 (E + k) <= v -> pow2 k <= v / pow2 E.
Proof.
  intros H. rewrite pow2_add in H. pose proof (pow2_pos E).
  apply Rmult_le_reg_r with (pow2 E); trivial.
  replace (v / pow2 E * pow2 E) with v by (field; lra). lra.
Qed.

Lemma rounds_mono v1 v2 r1 r2 :
  rounds v1 r1 -> rounds v2 r2 -> v1 <= v2 -> xval r1 <= xval r2.
Proof.
  intros (_ & E1 & n1 & G1 & N1 & X1) (_ & E2 & n2 & G2 & N2 & X2) Hv.
  rewrite X1, X2. apply Rle_min_compat_r.
  pose proof (grid_mono _ _ _ _ G1 G2 Hv) as HE.
  pose proof (pow2_pos E1) as P1. pose proof (pow2_pos E2) as P2.
  destruct (Z.eq_dec E1 E2) as [<-|Hne].
  - assert (n1 <= n2)%Z.
    { eapply rne_mono; eauto. unfold Rdiv. apply Rmult_le_compat_r; trivial.
      apply Rlt_le, Rinv_0_lt_compat; trivial. }
    apply Rmult_le_compat_r; [lra|]. now apply IZR_le.
  - destruct G1 as [G1 G1']. destruct G2 as [_ [->|[_ G2]]]; [destruct G1' as [?|[? _]]; lia|].
    apply div_pow2_lt in G1. rewrite (pow2_IZR 53) in G1 by lia.
    apply (rne_upper _ _ _ N1) in G1.
    apply div_pow2_le in G2. rewrite (pow2_IZR 52) in G2 by lia.
    apply (rne_lower _ _ _ N2) in G2.
    apply IZR_le in G1, G2. rewrite <- (pow2_IZR 53) in G1 by lia.
    rewrite <- (pow2_IZR 52) in G2 by lia.
    apply Rle_trans with (pow2 53 * pow2 E1); [apply Rmult_le_compat_r; lra|].
    apply Rle_trans with (pow2 52 * pow2 E2); [|apply Rmult_le_compat_r; lra].
    rewrite <- !pow2_add. apply pow2_le. lia.
Qed.

Lemma loc_ok_bounds u m l : loc_ok u m l -> IZR m <= u < IZR m + 1.
Proof. destruct l as [|[]]; cbn [loc_ok]; intros; lra. Qed.

Lemma round_nearest_even_ge m l : (m <= round_nearest_even m l)%Z.
Proof. destruct l as [|[]]; cbn [round_nearest_even]; try destruct (Z.even m); lia. Qed.

Lemma shr_nop mrs e k : (k <= 0)%Z -> shr mrs e k = (mrs, e).
Proof. destruct k; trivial; lia. Qed.

Lemma grid_ge v E : grid v E -> (-1074 <= E)%Z.
Proof. intros [_ [->|[? _]]]; lia. Qed.

Lemma mul_div_pow2 v e : v = v / pow2 e * pow2 e.
Proof. field. apply Rgt_not_eq, pow2_pos. Qed.

(** The exponent picked from the digits of the truncated mantissa is the
    exponent of the value's grid. *)
Lemma Zdigits2_grid mx ex lx v :
  (0 <= mx)%Z -> loc_ok (v / pow2 ex) mx lx ->
  (ex <= fexp prec emax (Zdigits2 mx + ex))%Z ->
  grid v (fexp prec emax (Zdigits2 mx + ex)).
Proof.
  intros Hmx Hloc Hex. apply loc_ok_bounds in Hloc.
  rewrite (mul_div_pow2 v ex). set (u := v / pow2 ex) in *. clearbody u.
  pose proof (pow2_pos ex) as Pex.
  rewrite fexp64 in *. unfold grid.
  destruct mx as [|p|p]; [| |lia]; cbn [Zdigits2] in *.
  - rewrite Z.add_0_l in *. assert (ex <= -1074)%Z by lia.
    replace (Z.max (ex - 53) (-1074)) with (-1074)%Z by lia. split; [|now left].
    apply Rlt_le_trans with (pow2 ex); [nra|]. apply pow2_le. lia.
  - pose proof (digits2_bounds p) as [Dl Du].
    set (d := Zpos (digits2_pos p)) in *.
    assert (Hup : IZR (Zpos p) + 1 <= pow2 d).
    { rewrite (pow2_IZR d) in Du |- * by (unfold d; lia).
      rewrite <- plus_IZR. apply IZR_le. apply lt_IZR in Du. lia. }
    split.
    + apply Rlt_le_trans with (pow2 d * pow2 ex); [nra|].
      rewrite <- pow2_add. apply pow2_le. lia.
    + destruct (Z_le_gt_dec (d + ex - 53) (-1074)) as [Hs|Hs]; [left; lia|right].
      split; [lia|].
      replace (Z.max (d + ex - 53) (-1074) + 52)%Z with ((d - 1) + ex)%Z by lia.
      rewrite pow2_add. nra.
Qed.

Lemma bounded_intro m e :
  fexp prec emax (Zpos (digits2_pos m) + e) = e -> (e <= 971)%Z ->
  bounded prec emax m e = true.
Proof.
  intros Hc He. unfold bounded, canonical_mantissa. rewrite Hc, Z.eqb_refl.
  apply Z.leb_le. exact He.
Qed.

Lemma bounded_elim m e :
  bounded prec emax m e = true ->
  fexp prec emax (Zpos (digits2_pos m) + e) = e /\ (e <= 971)%Z.
Proof.
  unfold bounded, canonical_mantissa. intros H. apply andb_prop in H as [H1 H2].
  apply Z.eqb_eq in H1. apply Z.leb_le in H2. split; trivial.
Qed.

(** The rounding step of every operation: a truncated mantissa with its
    location goes to the nearest binary64, ties to even. *)
Lemma binary_round_aux_rounds mx ex lx v :
  (0 <= mx)%Z -> loc_ok (v / pow2 ex) mx lx ->
  (ex <= fexp prec emax (Zdigits2 mx + ex))%Z ->
  rounds v (binary_round_aux prec emax false mx ex lx).
Proof.
  intros Hmx Hloc Hex.
  pose proof (Zdigits2_grid _ _ _ _ Hmx Hloc Hex) as G.
  unfold binary_round_aux, shr_fexp at 1.
  set (E := fexp prec emax (Zdigits2 mx + ex)) in *.
  pose proof (shr_ok v _ ex (E - ex) (rec_ok_of_loc _ _ _ Hmx Hloc)) as K.
  destruct (shr (shr_record_of_loc mx lx) ex (E - ex)) as [mrs' e'].
  destruct K as [-> [Hm' Hl']].
  replace (Z.max ex (ex + (E - ex))) with E in * by lia.
  apply rne_of_loc in Hl'.
  pose proof (round_nearest_even_ge (shr_m mrs') (loc_of_shr_record mrs')) as Hn.
  set (n := round_nearest_even (shr_m mrs') (loc_of_shr_record mrs')) in *.
  clearbody n.
  pose proof (grid_ge _ _ G) as HE.
  assert (Hn53 : (n <= 2 ^ 53)%Z).
  { apply (rne_upper _ _ _ Hl'). rewrite <- pow2_IZR by lia.
    apply div_pow2_lt. apply G. }
  assert (Hn52 : (-1074 < E)%Z -> (2 ^ 52 <= n)%Z).
  { intros HE'. apply (rne_lower _ _ _ Hl'). rewrite <- pow2_IZR by lia.
    apply div_pow2_le. destruct G as [_ [?|[_ ?]]]; [lia|trivial]. }
  unfold shr_fexp. rewrite fexp64.
  destruct (Z.eq_dec n (2 ^ 53)) as [En|En].
  - (* the mantissa rounded up to the next power of two *)
    rewrite En. change (Zdigits2 (2 ^ 53)) with 54%Z.
    replace (Z.max (54 + E - 53) (-1074) - E)%Z with 1%Z by lia.
    cbn [shr shr_record_of_loc iter_pos shr_1 Z.pow Z.pow_pos Pos.iter Z.mul Pos.mul shr_m].
    change (emax - prec)%Z with 971%Z.
    destruct (Z.leb_spec (E + 1) 971) as [Hle|Hgt].
    + split.
      * cbn [nonneg negb andb]. apply bounded_intro; [|trivial].
        rewrite fexp64. change (Zpos (digits2_pos 4503599627370496)) with 53%Z. lia.
      * exists E, n. repeat split; try apply G; try apply Hl'.
        cbn [xval]. rewrite En, Rmin_left.
        -- change (IZR (Zpos 4503599627370496)) with (IZR (2 ^ 52)).
           rewrite <- !pow2_IZR by lia. rewrite <- !pow2_add. f_equal. lia.
        -- rewrite <- pow2_IZR, <- pow2_add by lia. apply pow2_le. lia.
    + split; [reflexivity|].
      exists E, n. repeat split; try apply G; try apply Hl'.
      cbn [xval]. rewrite En, Rmin_right; trivial.
      rewrite <- pow2_IZR, <- pow2_add by lia. apply pow2_le. lia.
  - assert (Hlt : (n < 2 ^ 53)%Z) by lia.
    destruct n as [|q|q] eqn:Eq; [| |lia].
    + (* rounded to zero *)
      cbn [Zdigits2]. rewrite shr_nop by lia.
      cbn [shr_record_of_loc shr_m]. split; [reflexivity|].
      exists E, 0%Z. repeat split; try apply G; try apply Hl'.
      cbn [xval]. rewrite Rmult_0_l, Rmin_left; [trivial|]. apply Rlt_le, pow2_pos.
    + cbn [Zdigits2].
      pose proof (digits2_bounds q) as [Dl Du].
      set (d := Zpos (digits2_pos q)) in *.
      assert (Hd : (d <= 53)%Z).
      { assert (pow2 (d - 1) < pow2 53).
        { eapply Rle_lt_trans; [exact Dl|]. rewrite pow2_IZR by lia. now apply IZR_lt. }
        apply pow2_lt_inv in H. lia. }
      assert (Hd' : (-1074 < E)%Z -> (53 <= d)%Z).
      { intros HE'. specialize (Hn52 HE').
        assert (pow2 52 < pow2 d).
        { eapply Rle_lt_trans; [|exact Du]. rewrite pow2_IZR by lia. now apply IZR_le. }
        apply pow2_lt_inv in H. lia. }
      rewrite shr_nop by lia.
      cbn [shr_record_of_loc shr_m]. change (emax - prec)%Z with 971%Z.
      destruct (Z.leb_spec E 971) as [Hle|Hgt].
      * split.
        -- cbn [nonneg negb andb]. apply bounded_intro; [|trivial].
           rewrite fexp64. fold d. lia.
        -- exists E, (Zpos q). repeat split; try apply G; try apply Hl'.
           cbn [xval]. rewrite Rmin_left; trivial.
           apply Rle_trans with (pow2 53 * pow2 E).
           ++ apply Rmult_le_compat_r; [apply Rlt_le, pow2_pos|].
              rewrite pow2_IZR by lia. apply IZR_le. lia.
           ++ rewrite <- pow2_add. apply pow2_le. lia.
      * split; [reflexivity|].
        exists E, (Zpos q). repeat split; try apply G; try apply Hl'.
        cbn [xval]. rewrite Rmin_right; trivial.
        apply Rle_trans with (pow2 52 * pow2 E).
        ++ rewrite <- pow2_add. apply pow2_le. lia.
        ++ apply Rmult_le_compat_r; [apply Rlt_le, pow2_pos|].
           rewrite pow2_IZR by lia. apply IZR_le. apply Hn52. lia.
Qed.

(** ** Canonical floats and their order *)

Lemma bounded_range m e :
  bounded prec emax m e = true ->
  (-1074 <= e <= 971)%Z /\ IZR (Zpos m) < pow2 53 /\
  ((-1074 < e)%Z -> pow2 52 <= IZR (Zpos m)).
Proof.
  intros H. apply bounded_elim in H as [Hc He]. rewrite fexp64 in Hc.
  pose proof (digits2_bounds m) as [Dl Du].
  set (d := Zpos (digits2_pos m)) in *.
  split; [lia|]. split.
  - eapply Rlt_le_trans; [exact Du|]. apply pow2_le. lia.
  - intros He'. eapply Rle_trans; [|exact Dl]. apply pow2_le. lia.
Qed.

Lemma finite_grid m e :
  bounded prec emax m e = true -> grid (IZR (Zpos m) * pow2 e) e.
Proof.
  intros H. apply bounded_range in H as (He & Hu & Hl).
  pose proof (pow2_pos e). split.
  - rewrite pow2_add, Rmult_comm. apply Rmult_lt_compat_l; trivial.
  - destruct (Z.eq_dec e (-1074)) as [|Hne]; [now left|right].
    split; [lia|]. rewrite pow2_add, Rmult_comm.
    apply Rmult_le_compat_r; [lra|]. apply Hl. lia.
Qed.

Lemma finite_lt_overflow m e :
  bounded prec emax m e = true -> 0 < IZR (Zpos m) * pow2 e < pow2 1024.
Proof.
  intros H. apply bounded_range in H as (He & Hu & Hl).
  pose proof (pow2_pos e). split.
  - apply Rmult_lt_0_compat; trivial. apply IZR_lt. lia.
  - apply Rlt_le_trans with (pow2 53 * pow2 e).
    + apply Rmult_lt_compat_r; trivial.
    + rewrite <- pow2_add. apply pow2_le. lia.
Qed.

Lemma rounds_self m e :
  bounded prec emax m e = true ->
  rounds (IZR (Zpos m) * pow2 e) (S754_finite false m e).
Proof.
  intros H. split; [cbn [nonneg negb andb]; exact H|].
  exists e, (Zpos m). split; [now apply finite_grid|]. split.
  - replace (IZR (Zpos m) * pow2 e / pow2 e) with (IZR (Zpos m))
      by (field; apply Rgt_not_eq, pow2_pos).
    unfold rne. repeat split; intros; lra.
  - cbn [xval]. rewrite Rmin_left; trivial. apply Rlt_le, finite_lt_overflow, H.
Qed.

Lemma rounds_fun v r1 r2 : rounds v r1 -> rounds v r2 -> xval r1 = xval r2.
Proof.
  intros H1 H2. apply Rle_antisym; eapply rounds_mono; eauto; lra.
Qed.

Lemma canonical_lt m1 e1 m2 e2 :
  bounded prec emax m1 e1 = true -> bounded prec emax m2 e2 = true ->
  (e1 < e2)%Z -> IZR (Zpos m1) * pow2 e1 < IZR (Zpos m2) * pow2 e2.
Proof.
  intros H1 H2 He.
  apply bounded_range in H1 as (R1 & U1 & _), H2 as (R2 & _ & L2).
  specialize (L2 ltac:(lia)).
  pose proof (pow2_pos e1). pose proof (pow2_pos e2).
  apply Rlt_le_trans with (pow2 53 * pow2 e1); [apply Rmult_lt_compat_r; trivial|].
  apply Rle_trans with (pow2 52 * pow2 e2); [|apply Rmult_le_compat_r; lra].
  rewrite <- !pow2_add. apply pow2_le. lia.
Qed.

Lemma canonical_inj m1 e1 m2 e2 :
  bounded prec emax m1 e1 = true -> bounded prec emax m2 e2 = true ->
  IZR (Zpos m1) * pow2 e1 = IZR (Zpos m2) * pow2 e2 -> m1 = m2 /\ e1 = e2.
Proof.
  intros H1 H2 Hv.
  destruct (Z.lt_trichotomy e1 e2) as [Hlt|[->|Hgt]].
  - pose proof (canonical_lt _ _ _ _ H1 H2 Hlt). lra.
  - split; trivial. pose proof (pow2_pos e2).
    apply Rmult_eq_reg_r in Hv; [|lra]. apply eq_IZR in Hv. congruence.
  - pose proof (canonical_lt _ _ _ _ H2 H1 Hgt). lra.
Qed.

Lemma xval_range x : nonneg x = true -> 0 <= xval x <= pow2 1024.
Proof.
  pose proof (pow2_pos 1024).
  destruct x as [s|[]|  |[] m e]; cbn [nonneg xval negb andb]; intros Hx;
    try discriminate; try lra.
  pose proof (finite_lt_overflow _ _ Hx). lra.
Qed.

(** [SFcompare] on non-negative canonical floats is the order of their values. *)
Lemma SFcompare_xval x y :
  nonneg x = true -> nonneg y = true ->
  (SFcompare x y = Some Lt /\ xval x < xval y) \/
  (SFcompare x y = Some Eq /\ xval x = xval y) \/
  (SFcompare x y = Some Gt /\ xval y < xval x).
Proof.
  pose proof (pow2_pos 1024).
  destruct x as [sx|[]| |[] mx ex]; destruct y as [sy|[]| |[] my ey];
    cbn [nonneg negb andb]; intros Hx Hy; try discriminate;
    cbn [SFcompare xval];
    try (pose proof (finite_lt_overflow _ _ Hx));
    try (pose proof (finite_lt_overflow _ _ Hy));
    try (left; split; [reflexivity|lra]);
    try (right; left; split; [reflexivity|lra]);
    try (right; right; split; [reflexivity|lra]).
  destruct (Z.compare_spec ex ey) as [->|Hlt|Hgt].
  - change (Pos.compare_cont Eq mx my) with (Pos.compare mx my).
    pose proof (pow2_pos ey).
    destruct (Pos.compare_spec mx my) as [->|Hm|Hm].
    + right; left; split; trivial.
    + left; split; trivial. apply Rmult_lt_compat_r; trivial. apply IZR_lt. lia.
    + right; right; split; trivial. apply Rmult_lt_compat_r; trivial. apply IZR_lt. lia.
  - left; split; trivial. now apply canonical_lt.
  - right; right; split; trivial. now apply canonical_lt.
Qed.

Lemma SFleb_xval x y :
  nonneg x = true -> nonneg y = true ->
  (SFleb x y = true <-> xval x <= xval y).
Proof.
  intros Hx Hy. unfold SFleb.
  destruct (SFcompare_xval x y Hx Hy) as [[-> ?]|[[-> ?]|[-> ?]]];
    split; intros; try lra; try discriminate; trivial.
Qed.

Lemma SFltb_xval x y :
  nonneg x = true -> nonneg y = true ->
  (SFltb x y = true <-> xval x < xval y).
Proof.
  intros Hx Hy. unfold SFltb.
  destruct (SFcompare_xval x y Hx Hy) as [[-> ?]|[[-> ?]|[-> ?]]];
    split; intros; try lra; try discriminate; trivial.
Qed.

(** ** The operations on positive finite floats *)

Lemma digits2_mul_ge mx my :
  (Zpos (digits2_pos mx) + Zpos (digits2_pos my) - 1 <= Zpos (digits2_pos (mx * my)))%Z.
Proof.
  pose proof (digits2_bounds mx) as [Lx _]. pose proof (digits2_bounds my) as [Ly _].
  pose proof (digits2_bounds (mx * my)) as [_ U].
  set (dx := Zpos (digits2_pos mx)) in *. set (dy := Zpos (digits2_pos my)) in *.
  set (d := Zpos (digits2_pos (mx * my))) in *.
  rewrite Pos2Z.inj_mul, mult_IZR in U.
  assert (pow2 ((dx - 1) + (dy - 1)) < pow2 d).
  { rewrite pow2_add. pose proof (pow2_pos (dx - 1)). pose proof (pow2_pos (dy - 1)). nra. }
  apply pow2_lt_inv in H. lia.
Qed.

Lemma SFmul_rounds mx ex my ey :
  bounded prec emax mx ex = true -> bounded prec emax my ey = true ->
  rounds (IZR (Zpos mx) * pow2 ex * (IZR (Zpos my) * pow2 ey))
         (SFmul prec emax (S754_finite false mx ex) (S754_finite false my ey)).
Proof.
  intros Hx Hy. cbn [SFmul xorb].
  apply binary_round_aux_rounds; [lia| |].
  - cbn [loc_ok]. rewrite Pos2Z.inj_mul, mult_IZR, pow2_add. field.
    split; apply Rgt_not_eq, pow2_pos.
  - apply bounded_elim in Hx as [Cx _], Hy as [Cy _].
    pose proof (digits2_mul_ge mx my).
    assert (0 < Zpos (digits2_pos mx))%Z by lia.
    assert (0 < Zpos (digits2_pos my))%Z by lia.
    rewrite fexp64 in *. cbn [Zdigits2]. lia.
Qed.

Lemma iter_xO_val m d : Zpos (Pos.iter xO m d) = (Zpos m * 2 ^ Zpos d)%Z.
Proof.
  induction d as [|d IH] using Pos.peano_ind.
  - cbn [Pos.iter]. lia.
  - rewrite Pos.iter_succ, Pos2Z.inj_xO, IH, Pos2Z.inj_succ, Z.pow_succ_r by lia. lia.
Qed.

Lemma iter_xO_digits m d :
  Zpos (digits2_pos (Pos.iter xO m d)) = (Zpos (digits2_pos m) + Zpos d)%Z.
Proof.
  induction d as [|d IH] using Pos.peano_ind.
  - cbn [Pos.iter digits2_pos]. lia.
  - rewrite Pos.iter_succ. cbn [digits2_pos]. rewrite Pos2Z.inj_succ, IH. lia.
Qed.

(** [shl_align] lowers the exponent to [e'] when [e' < e], keeping the value. *)
Lemma shl_align_ok m e e' :
  let '(m', e'') := shl_align m e e' in
  e'' = Z.min e e' /\
  IZR (Zpos m') * pow2 e'' = IZR (Zpos m) * pow2 e /\
  (Zpos (digits2_pos m') + e'' = Zpos (digits2_pos m) + e)%Z.
Proof.
  unfold shl_align. destruct (e' - e)%Z as [|d|d] eqn:Hd.
  - repeat split; lia.
  - repeat split; lia.
  - split; [lia|]. split.
    + rewrite iter_xO_val, mult_IZR, <- pow2_IZR by lia.
      rewrite Rmult_assoc, <- pow2_add. do 2 f_equal. lia.
    + rewrite iter_xO_digits. lia.
Qed.

Lemma binary_round_rounds m e :
  rounds (IZR (Zpos m) * pow2 e) (binary_round prec emax false m e).
Proof.
  unfold binary_round.
  pose proof (shl_align_ok m e (fexp prec emax (Zpos (digits2_pos m) + e))) as K.
  destruct (shl_align m e (fexp prec emax (Zpos (digits2_pos m) + e))) as [m' e''].
  destruct K as (He & Hv & Hd). rewrite <- Hv.
  apply binary_round_aux_rounds; [lia| |].
  - cbn [loc_ok]. field. apply Rgt_not_eq, pow2_pos.
  - cbn [Zdigits2]. rewrite Hd. lia.
Qed.

Lemma SFadd_rounds mx ex my ey :
  rounds (IZR (Zpos mx) * pow2 ex + IZR (Zpos my) * pow2 ey)
         (SFadd prec emax (S754_finite false mx ex) (S754_finite false my ey)).
Proof.
  cbn [SFadd cond_Zopp].
  pose proof (shl_align_ok mx ex (Z.min ex ey)) as Kx.
  pose proof (shl_align_ok my ey (Z.min ex ey)) as Ky.
  destruct (shl_align mx ex (Z.min ex ey)) as [mx' ex'].
  destruct (shl_align my ey (Z.min ex ey)) as [my' ey'].
  destruct Kx as (Ex & Vx & _). destruct Ky as (Ey & Vy & _).
  cbn [fst]. change (Zpos mx' + Zpos my')%Z with (Zpos (mx' + my')).
  cbn [binary_normalize].
  replace (IZR (Zpos mx) * pow2 ex + IZR (Zpos my) * pow2 ey)
    with (IZR (Zpos (mx' + my')) * pow2 (Z.min ex ey)).
  - apply binary_round_rounds.
  - rewrite Pos2Z.inj_add, plus_IZR, <- Vx, <- Vy.
    replace ex' with (Z.min ex ey) by lia. replace ey' with (Z.min ex ey) by lia. ring.
Qed.

Lemma new_location_ok nb k q :
  (0 < nb)%Z -> (0 <= k < nb)%Z ->
  loc_ok (IZR q + IZR k / IZR nb) q (new_location nb k).
Proof.
  intros Hnb Hk.
  assert (Pnb : 0 < IZR nb) by (apply IZR_lt; lia).
  assert (Hk0 : 0 <= IZR k) by (apply IZR_le; lia).
  assert (Hkn : IZR k < IZR nb) by (apply IZR_lt; lia).
  assert (Hdiv : forall c, (c = Lt -> 2 * IZR k < IZR nb) ->
                 (c = Eq -> 2 * IZR k = IZR nb) ->
                 (c = Gt -> IZR nb < 2 * IZR k) -> k <> 0%Z ->
                 loc_ok (IZR q + IZR k / IZR nb) q (loc_Inexact c)).
  { intros c HLt HEq HGt Hk'.
    assert (0 < IZR k) by (apply IZR_lt; lia).
    assert (0 < IZR k / IZR nb) by (apply Rdiv_lt_0_compat; lra).
    assert (IZR k / IZR nb < 1).
    { apply Rmult_lt_reg_r with (IZR nb); trivial.
      replace (IZR k / IZR nb * IZR nb) with (IZR k) by (field; lra). lra. }
    assert (Hhalf : forall a, a * IZR nb = IZR k -> a = IZR k / IZR nb)
      by (intros a Ha; rewrite <- Ha; field; lra).
    destruct c; cbn [loc_ok].
    - specialize (HEq eq_refl). rewrite <- (Hhalf (/2)); lra.
    - specialize (HLt eq_refl). split; [lra|].
      apply Rplus_lt_compat_l. apply Rmult_lt_reg_r with (IZR nb); trivial.
      replace (IZR k / IZR nb * IZR nb) with (IZR k) by (field; lra). lra.
    - specialize (HGt eq_refl). split; [|lra].
      apply Rplus_lt_compat_l. apply Rmult_lt_reg_r with (IZR nb); trivial.
      replace (IZR k / IZR nb * IZR nb) with (IZR k) by (field; lra). lra. }
  unfold new_location, new_location_even, new_location_odd.
  destruct (Z.even nb) eqn:Ev; destruct (Z.eqb_spec k 0) as [->|Hk'].
  - cbn [loc_ok]. unfold Rdiv. lra.
  - apply Hdiv; trivial; intros Hc.
    + apply Z.compare_lt_iff in Hc. apply IZR_lt in Hc. rewrite mult_IZR in Hc. lra.
    + apply Z.compare_eq_iff in Hc. apply (f_equal IZR) in Hc. rewrite mult_IZR in Hc. lra.
    + apply Z.compare_gt_iff in Hc. apply IZR_lt in Hc. rewrite mult_IZR in Hc. lra.
  - cbn [loc_ok]. unfold Rdiv. lra.
  - assert (Hodd : Z.odd nb = true) by (rewrite <- Z.negb_even, Ev; trivial).
    apply Z.odd_spec in Hodd as [j Hj].
    apply Hdiv; trivial; intros Hc;
      destruct (Z.compare_spec (2 * k + 1) nb) as [He|Hl|Hg]; try discriminate.
    + assert (2 * k < nb)%Z by lia. apply IZR_lt in H. rewrite mult_IZR in H. lra.
    + assert (2 * k < nb)%Z by lia. apply IZR_lt in H. rewrite mult_IZR in H. lra.
    + assert (nb < 2 * k)%Z by lia. apply IZR_lt in H. rewrite mult_IZR in H. lra.
Qed.

Lemma digits2_bounds_Z m :
  (2 ^ (Zpos (digits2_pos m) - 1) <= Zpos m < 2 ^ Zpos (digits2_pos m))%Z.
Proof.
  pose proof (digits2_bounds m) as [L U].
  rewrite pow2_IZR in L, U by lia.
  apply le_IZR in L. apply lt_IZR in U. lia.
Qed.

Lemma Zdigits2_ge53 q : (2 ^ 52 <= q)%Z -> (53 <= Zdigits2 q)%Z.
Proof.
  intros Hq. destruct q as [|p|p]; try lia. cbn [Zdigits2].
  pose proof (digits2_bounds_Z p) as [_ U].
  destruct (Z_lt_le_dec (Zpos (digits2_pos p)) 53) as [Hlt|]; trivial.
  assert (2 ^ Zpos (digits2_pos p) <= 2 ^ 52)%Z by (apply Z.pow_le_mono_r; lia). lia.
Qed.

Lemma SFdiv_rounds mx ex my ey :
  rounds (IZR (Zpos mx) * pow2 ex / (IZR (Zpos my) * pow2 ey))
         (SFdiv prec emax (S754_finite false mx ex) (S754_finite false my ey)).
Proof.
  cbn [SFdiv xorb]. unfold SFdiv_core_binary. cbn [Zdigits2].
  pose proof (digits2_bounds_Z mx) as [L1 U1]. pose proof (digits2_bounds_Z my) as [L2 U2].
  set (d1 := Zpos (digits2_pos mx)) in *. set (d2 := Zpos (digits2_pos my)) in *.
  assert (Hd1 : (0 < d1)%Z) by (unfold d1; lia).
  assert (Hd2 : (0 < d2)%Z) by (unfold d2; lia).
  rewrite fexp64.
  set (e' := Z.min (Z.max (d1 + ex - (d2 + ey) - 53) (-1074)) (ex - ey)).
  set (s := (ex - ey - e')%Z).
  assert (Hs : (0 <= s)%Z) by (unfold s, e'; lia).
  set (m' := match s with Zpos _ => Z.shiftl (Zpos mx) s | Z0 => Zpos mx | Zneg _ => 0%Z end).
  assert (Hm' : m' = (Zpos mx * 2 ^ s)%Z).
  { unfold m'. destruct s as [|p|p]; [lia| |lia]. apply Z.shiftl_mul_pow2. lia. }
  clearbody m'.
  pose proof (Z_div_mod m' (Zpos my) ltac:(lia)) as D.
  destruct (Z.div_eucl m' (Zpos my)) as [q r]. destruct D as [D Hr].
  assert (P2s : (0 < 2 ^ s)%Z) by (apply Z.pow_pos_nonneg; lia).
  assert (Hq : (0 <= q)%Z) by nia.
  apply binary_round_aux_rounds; trivial.
  - replace (IZR (Zpos mx) * pow2 ex / (IZR (Zpos my) * pow2 ey) / pow2 e')
      with (IZR q + IZR r / IZR (Zpos my)).
    + apply new_location_ok; lia.
    + assert (IZR (Zpos my) <> 0) by (apply Rgt_not_eq, IZR_lt; lia).
      pose proof (pow2_pos ey). pose proof (pow2_pos e').
      replace ex with (s + ey + e')%Z by (unfold s; lia).
      rewrite !pow2_add, (pow2_IZR s) by lia.
      apply (f_equal IZR) in D. rewrite Hm', plus_IZR, !mult_IZR in D.
      apply Rmult_eq_reg_r with (IZR (Zpos my)); trivial.
      transitivity (IZR (Zpos mx) * IZR (2 ^ s)); [rewrite D|]; field; lra.
  - rewrite fexp64.
    destruct (Z_le_gt_dec e' (-1074)) as [Hle|Hgt]; [lia|].
    assert (He' : (e' <= d1 + ex - (d2 + ey) - 53)%Z) by (unfold e' in *; lia).
    assert (Hs' : (d2 - d1 + 53 <= s)%Z) by (unfold s; lia).
    assert (H52 : (2 ^ 52 <= q)%Z).
    { assert (2 ^ (d2 + 52) <= m')%Z.
      { rewrite Hm'. apply Z.le_trans with (2 ^ (d1 - 1) * 2 ^ s)%Z.
        - rewrite <- Z.pow_add_r by lia. apply Z.pow_le_mono_r; lia.
        - apply Z.mul_le_mono_nonneg_r; lia. }
      rewrite Z.pow_add_r in H by lia.
      assert (Zpos my * (q + 1) > Zpos my * 2 ^ 52)%Z by nia.
      nia. }
    apply Zdigits2_ge53 in H52. lia.
Qed.

(** ** Non-negative floats: zeros, positive finite floats and [+inf] *)

Lemma rounds_zero s : rounds 0 (S754_zero s).
Proof.
  split; [reflexivity|]. exists (-1074)%Z, 0%Z. repeat split.
  - apply pow2_pos.
  - now left.
  - unfold Rdiv. rewrite Rmult_0_l. lra.
  - unfold Rdiv. rewrite Rmult_0_l. lra.
  - cbn [xval]. rewrite Rmult_0_l, Rmin_left; [trivial|apply Rlt_le, pow2_pos].
Qed.

Lemma nnfin_nonneg x : nnfin x = true -> nonneg x = true.
Proof. destruct x as [|[]| |[] m e]; cbn; trivial; intros; discriminate. Qed.

Lemma posfin_nnfin x : posfin x = true -> nnfin x = true.
Proof. destruct x as [|[]| |[] m e]; cbn; trivial; intros; discriminate. Qed.

Lemma posfin_pos x : posfin x = true -> 0 < xval x < pow2 1024.
Proof.
  destruct x as [|[]| |[] m e]; cbn [posfin]; try discriminate.
  intros H. cbn [xval]. now apply finite_lt_overflow.
Qed.

Lemma nnfin_lt x : nnfin x = true -> 0 <= xval x < pow2 1024.
Proof.
  pose proof (pow2_pos 1024).
  destruct x as [|[]| |[] m e]; cbn [nnfin xval]; try discriminate; try lra.
  intros Hb. pose proof (finite_lt_overflow _ _ Hb). lra.
Qed.

Lemma nonneg_cases x :
  nonneg x = true -> nnfin x = true \/ x = S754_infinity false.
Proof.
  destruct x as [|[]| |[] m e]; cbn; auto; intros; discriminate.
Qed.

Lemma rounds_nonneg v r : rounds v r -> nonneg r = true.
Proof. now intros [H _]. Qed.

Lemma SFmul_nnfin_rounds x c :
  nnfin x = true -> posfin c = true ->
  rounds (xval x * xval c) (SFmul prec emax x c).
Proof.
  destruct c as [|[]| |[] mc ec]; cbn [posfin]; try discriminate. intros Hx Hc.
  destruct x as [sx|[]| |[] mx ex]; cbn [nnfin] in Hx; try discriminate.
  - cbn [SFmul xval]. rewrite Rmult_0_l. apply rounds_zero.
  - cbn [xval]. now apply SFmul_rounds.
Qed.

Lemma SFdiv_nnfin_rounds x c :
  nnfin x = true -> posfin c = true ->
  rounds (xval x / xval c) (SFdiv prec emax x c).
Proof.
  destruct c as [|[]| |[] mc ec]; cbn [posfin]; try discriminate. intros Hx Hc.
  destruct x as [sx|[]| |[] mx ex]; cbn [nnfin] in Hx; try discriminate.
  - cbn [SFdiv xval]. unfold Rdiv. rewrite Rmult_0_l. apply rounds_zero.
  - cbn [xval]. apply SFdiv_rounds.
Qed.

Lemma SFadd_nnfin_rounds x y :
  nnfin x = true -> nnfin y = true ->
  rounds (xval x + xval y) (SFadd prec emax x y).
Proof.
  intros Hx Hy.
  destruct x as [sx|[]| |[] mx ex]; cbn [nnfin] in Hx; try discriminate;
  destruct y as [sy|[]| |[] my ey]; cbn [nnfin] in Hy; try discriminate.
  - cbn [xval]. rewrite Rplus_0_l.
    destruct sx, sy; cbn [SFadd]; apply rounds_zero.
  - cbn [SFadd xval]. rewrite Rplus_0_l. now apply rounds_self.
  - cbn [SFadd xval]. rewrite Rplus_0_r. now apply rounds_self.
  - cbn [xval]. apply SFadd_rounds.
Qed.

(** An operation that rounds a monotone function of its argument, and
    keeps [+inf], is monotone on the non-negative floats. *)
Lemma rounds_lift (op : spec_float -> spec_float) (f : R -> R) :
  (forall x, nnfin x = true -> rounds (f (xval x)) (op x)) ->
  op (S754_infinity false) = S754_infinity false ->
  (forall a b, 0 <= a <= b -> f a <= f b) ->
  forall x1 x2, nonneg x1 = true -> nonneg x2 = true -> xval x1 <= xval x2 ->
    nonneg (op x1) = true /\ nonneg (op x2) = true /\ xval (op x1) <= xval (op x2).
Proof.
  intros Hr Hinf Hf x1 x2 H1 H2 Hv.
  assert (Hnn : forall x, nonneg x = true -> nonneg (op x) = true).
  { intros x Hx. destruct (nonneg_cases x Hx) as [Hfin| ->].
    - eapply rounds_nonneg, Hr, Hfin.
    - now rewrite Hinf. }
  split; [now apply Hnn|]. split; [now apply Hnn|].
  destruct (nonneg_cases x2 H2) as [F2| ->].
  - destruct (nonneg_cases x1 H1) as [F1| ->].
    + eapply rounds_mono; [apply Hr, F1|apply Hr, F2|].
      apply Hf. pose proof (nnfin_lt _ F1). lra.
    + apply nnfin_lt in F2. cbn [xval] in Hv. lra.
  - rewrite Hinf. cbn [xval]. apply xval_range, Hnn, H1.
Qed.

Lemma SFmul_inf_l c : posfin c = true ->
  SFmul prec emax (S754_infinity false) c = S754_infinity false.
Proof. destruct c as [|[]| |[] mc ec]; cbn; trivial; intros; discriminate. Qed.

Lemma SFdiv_inf_l c : posfin c = true ->
  SFdiv prec emax (S754_infinity false) c = S754_infinity false.
Proof. destruct c as [|[]| |[] mc ec]; cbn; trivial; intros; discriminate. Qed.

Lemma SFadd_inf_l y : nonneg y = true ->
  SFadd prec emax (S754_infinity false) y = S754_infinity false.
Proof. destruct y as [|[]| |[] m e]; cbn; trivial; intros; discriminate. Qed.

Lemma SFadd_inf_r x : nonneg x = true ->
  SFadd prec emax x (S754_infinity false) = S754_infinity false.
Proof. destruct x as [|[]| |[] m e]; cbn; trivial; intros; discriminate. Qed.

Lemma SFmul_comm x y : SFmul prec emax x y = SFmul prec emax y x.
Proof.
  destruct x as [sx|sx| |sx mx ex]; destruct y as [sy|sy| |sy my ey];
    cbn [SFmul]; rewrite ?(xorb_comm sx sy); trivial.
  now rewrite Pos.mul_comm, Z.add_comm.
Qed.

Lemma SFadd_comm_nonneg x y :
  nonneg x = true -> nonneg y = true ->
  xval (SFadd prec emax x y) = xval (SFadd prec emax y x) /\
  nonneg (SFadd prec emax x y) = nonneg (SFadd prec emax y x).
Proof.
  destruct x as [sx|[]| |[] mx ex]; destruct y as [sy|[]| |[] my ey];
    cbn [nonneg negb andb]; intros Hx Hy; try discriminate;
    try (destruct sx); try (destruct sy); cbn [SFadd xval nonneg negb andb];
    rewrite ?Hx, ?Hy; auto.
  cbn [cond_Zopp]. rewrite Z.min_comm, Z.add_comm. auto.
Qed.

Section Monotone.

Variables x1 x2 : spec_float.
Hypothesis H1 : nonneg x1 = true.
Hypothesis H2 : nonneg x2 = true.
Hypothesis Hle : xval x1 <= xval x2.

Lemma SFmul_mono_l c : posfin c = true ->
  nonneg (SFmul prec emax x1 c) = true /\ nonneg (SFmul prec emax x2 c) = true /\
  xval (SFmul prec emax x1 c) <= xval (SFmul prec emax x2 c).
Proof.
  intros Hc.
  apply (rounds_lift (fun x => SFmul prec emax x c) (fun a => a * xval c)); trivial.
  - intros x Hx. now apply SFmul_nnfin_rounds.
  - now apply SFmul_inf_l.
  - intros a b Hab. pose proof (posfin_pos _ Hc). nra.
Qed.

Lemma SFdiv_mono_l c : posfin c = true ->
  nonneg (SFdiv prec emax x1 c) = true /\ nonneg (SFdiv prec emax x2 c) = true /\
  xval (SFdiv prec emax x1 c) <= xval (SFdiv prec emax x2 c).
Proof.
  intros Hc.
  apply (rounds_lift (fun x => SFdiv prec emax x c) (fun a => a / xval c)); trivial.
  - intros x Hx. now apply SFdiv_nnfin_rounds.
  - now apply SFdiv_inf_l.
  - intros a b Hab. pose proof (posfin_pos _ Hc) as [Hp _].
    unfold Rdiv. apply Rmult_le_compat_r; [|lra].
    apply Rlt_le, Rinv_0_lt_compat, Hp.
Qed.

Lemma SFadd_mono_l y : nonneg y = true ->
  nonneg (SFadd prec emax x1 y) = true /\ nonneg (SFadd prec emax x2 y) = true /\
  xval (SFadd prec emax x1 y) <= xval (SFadd prec emax x2 y).
Proof.
  intros Hy. destruct (nonneg_cases y Hy) as [Fy| ->].
  - apply (rounds_lift (fun x => SFadd prec emax x y) (fun a => a + xval y)); trivial.
    + intros x Hx. now apply SFadd_nnfin_rounds.
    + now apply SFadd_inf_l.
    + intros a b Hab. lra.
  - rewrite !SFadd_inf_r by trivial. cbn. repeat split; trivial. lra.
Qed.

End Monotone.

Lemma SFmul_mono_r x c1 c2 :
  nonneg x = true -> posfin c1 = true -> posfin c2 = true -> xval c1 <= xval c2 ->
  nonneg (SFmul prec emax x c1) = true /\ nonneg (SFmul prec emax x c2) = true /\
  xval (SFmul prec emax x c1) <= xval (SFmul prec emax x c2).
Proof.
  intros Hx Hc1 Hc2 Hc.
  destruct (nonneg_cases x Hx) as [Fx| ->].
  - pose proof (SFmul_nnfin_rounds x c1 Fx Hc1) as R1.
    pose proof (SFmul_nnfin_rounds x c2 Fx Hc2) as R2.
    split; [eapply rounds_nonneg, R1|]. split; [eapply rounds_nonneg, R2|].
    eapply rounds_mono; eauto.
    pose proof (nnfin_lt _ Fx). pose proof (posfin_pos _ Hc1). nra.
  - rewrite !SFmul_inf_l by trivial. cbn. repeat split; trivial. lra.
Qed.

(** ** Signs, the unit of multiplication, and the full order *)

Lemma binary_round_aux_sign s mx ex lx :
  binary_round_aux prec emax s mx ex lx
  = with_sign s (binary_round_aux prec emax false mx ex lx).
Proof.
  unfold binary_round_aux.
  destruct (shr_fexp prec emax mx ex lx) as [mrs' e'].
  destruct (shr_fexp prec emax _ e' loc_Exact) as [mrs'' e''].
  destruct (shr_m mrs''); trivial.
  destruct (Z.leb e'' (emax - prec)); trivial.
Qed.

Lemma nonneg_xval_finite r m e :
  nonneg r = true -> bounded prec emax m e = true ->
  xval r = IZR (Zpos m) * pow2 e -> r = S754_finite false m e.
Proof.
  intros Hr Hb Hv. pose proof (finite_lt_overflow _ _ Hb) as Hlt.
  destruct r as [|[]| |[] m' e']; cbn [nonneg negb andb xval] in *;
    try discriminate; try lra.
  destruct (canonical_inj _ _ _ _ Hr Hb Hv) as [-> ->]. reflexivity.
Qed.

Lemma SFmul_one x :
  valid_binary x = true -> SFmul prec emax x one64 = x.
Proof.
  destruct x as [s|s| |s m e]; cbn [SFmul one64 valid_binary];
    rewrite ?xorb_false_r; trivial.
  intros Hb. rewrite binary_round_aux_sign.
  assert (H1 : bounded prec emax 4503599627370496 (-52) = true) by reflexivity.
  pose proof (SFmul_rounds m e _ _ Hb H1) as R. cbn [SFmul xorb] in R.
  pose proof (rounds_self m e Hb) as R'.
  replace (IZR (Zpos m) * pow2 e * (IZR (Zpos 4503599627370496) * pow2 (-52)))
    with (IZR (Zpos m) * pow2 e) in R.
  - pose proof (rounds_fun _ _ _ R R') as Hv. cbn [xval] in Hv.
    rewrite (nonneg_xval_finite _ m e (rounds_nonneg _ _ R) Hb Hv). reflexivity.
  - change (IZR (Zpos 4503599627370496)) with (IZR (2 ^ 52)).
    rewrite <- pow2_IZR by lia.
    rewrite Rmult_assoc, <- pow2_add. change (52 + -52)%Z with 0%Z.
    rewrite pow2_0. ring.
Qed.

Lemma SFcompare_antisym x y :
  SFcompare y x = option_map CompOpp (SFcompare x y).
Proof.
  destruct x as [sx|sx| |sx mx ex]; destruct y as [sy|sy| |sy my ey];
    cbn [SFcompare option_map]; try destruct sx; try destruct sy; trivial;
    rewrite (Z.compare_antisym ey ex);
    destruct (ey ?= ex)%Z; cbn [CompOpp]; trivial;
    rewrite (Pos.compare_cont_antisym mx my Eq); reflexivity.
Qed.

Lemma SFleb_not_ltb x y : SFleb x y = true -> SFltb y x = false.
Proof.
  unfold SFleb, SFltb. rewrite (SFcompare_antisym x y).
  destruct (SFcompare x y) as [[]|]; cbn; trivial; discriminate.
Qed.

Lemma SFltb_false_leb x y :
  SFltb x y = false -> SFcompare x y <> None -> SFleb y x = true.
Proof.
  unfold SFleb, SFltb. rewrite (SFcompare_antisym x y).
  destruct (SFcompare x y) as [[]|]; cbn; trivial; try discriminate. congruence.
Qed.

(** Being above a non-negative float makes a float non-negative. *)
Lemma SFleb_nonneg x y :
  valid_binary y = true -> nonneg x = true -> SFleb x y = true -> nonneg y = true.
Proof.
  unfold SFleb.
  destruct x as [sx|[]| |[] mx ex]; cbn [nonneg negb andb]; try discriminate;
    destruct y as [sy|[]| |[] my ey]; cbn [SFcompare valid_binary nonneg negb andb];
    trivial; discriminate.
Qed.

(** ** Primitive floats *)

Lemma nn_leb0 x : (0 <=? x)%float = true <-> nn x.
Proof.
  unfold nn. rewrite leb_spec. change (Prim2SF 0%float) with (S754_zero false).
  pose proof (Prim2SF_valid x) as V.
  unfold SFleb. destruct (Prim2SF x) as [s|[]| |[] m e];
    cbn [SFcompare nonneg negb andb valid_binary] in *; rewrite ?V;
    split; trivial; discriminate.
Qed.

Lemma pf_nn c : pf c -> nn c.
Proof. intros H. apply nnfin_nonneg, posfin_nnfin, H. Qed.

Lemma fle_leb x y : fle x y -> (x <=? y)%float = true.
Proof. intros (Hx & Hy & H). rewrite leb_spec. now apply SFleb_xval. Qed.

Lemma leb_fle x y : nn x -> (x <=? y)%float = true -> fle x y.
Proof.
  intros Hx H. rewrite leb_spec in H.
  assert (Hy : nn y) by (eapply SFleb_nonneg; eauto; apply Prim2SF_valid).
  repeat split; trivial. now apply SFleb_xval.
Qed.

Lemma ltb_fval x y : nn x -> nn y -> ((x <? y)%float = true <-> fval x < fval y).
Proof. intros Hx Hy. rewrite ltb_spec. now apply SFltb_xval. Qed.

Lemma fle_refl x : nn x -> fle x x.
Proof. intros H. repeat split; trivial. lra. Qed.

Lemma fle_trans x y z : fle x y -> fle y z -> fle x z.
Proof. intros (Hx & _ & H1) (_ & Hz & H2). repeat split; trivial. lra. Qed.

Lemma fle_mul_r c x1 x2 : pf c -> fle x1 x2 -> fle (x1 * c)%float (x2 * c)%float.
Proof.
  intros Hc (H1 & H2 & H). unfold fle, nn, fval. rewrite !mul_spec.
  now apply SFmul_mono_l.
Qed.

Lemma fle_mul_l c x1 x2 : pf c -> fle x1 x2 -> fle (c * x1)%float (c * x2)%float.
Proof.
  intros Hc (H1 & H2 & H). unfold fle, nn, fval. rewrite !mul_spec.
  unfold SF64mul. rewrite !(SFmul_comm (Prim2SF c)). now apply SFmul_mono_l.
Qed.

Lemma fle_mul_const x c1 c2 :
  nn x -> pf c1 -> pf c2 -> fval c1 <= fval c2 -> fle (x * c1)%float (x * c2)%float.
Proof.
  intros Hx H1 H2 H. unfold fle, nn, fval. rewrite !mul_spec.
  now apply SFmul_mono_r.
Qed.

Lemma fle_div_r c x1 x2 : pf c -> fle x1 x2 -> fle (x1 / c)%float (x2 / c)%float.
Proof.
  intros Hc (H1 & H2 & H). unfold fle, nn, fval. rewrite !div_spec.
  now apply SFdiv_mono_l.
Qed.

Lemma fle_add_l y x1 x2 : nn y -> fle x1 x2 -> fle (x1 + y)%float (x2 + y)%float.
Proof.
  intros Hy (H1 & H2 & H). unfold fle, nn, fval. rewrite !add_spec.
  now apply SFadd_mono_l.
Qed.

Lemma fle_add_r x y1 y2 : nn x -> fle y1 y2 -> fle (x + y1)%float (x + y2)%float.
Proof.
  intros Hx (H1 & H2 & H). unfold fle, nn, fval. rewrite !add_spec. unfold SF64add.
  destruct (SFadd_comm_nonneg (Prim2SF x) (Prim2SF y1) Hx H1) as [-> ->].
  destruct (SFadd_comm_nonneg (Prim2SF x) (Prim2SF y2) Hx H2) as [-> ->].
  now apply SFadd_mono_l.
Qed.

Lemma fle_add x1 x2 y1 y2 :
  fle x1 x2 -> fle y1 y2 -> fle (x1 + y1)%float (x2 + y2)%float.
Proof.
  intros Hx Hy. apply fle_trans with (x2 + y1)%float.
  - apply fle_add_l; trivial. apply Hy.
  - apply fle_add_r; trivial. apply Hx.
Qed.

Lemma mul_one x : (x * 1)%float = x.
Proof.
  apply Prim2SF_inj. rewrite mul_spec.
  change (Prim2SF 1%float) with one64. apply SFmul_one, Prim2SF_valid.
Qed.

Lemma fle_pos a b : fle a b -> (0 <? a)%float = true -> (0 <? b)%float = true.
Proof.
  intros (Ha & Hb & H) Hpos.
  assert (H0 : nn 0%float) by reflexivity.
  apply (ltb_fval _ _ H0 Ha) in Hpos. apply (ltb_fval _ _ H0 Hb). lra.
Qed.


(** ** Exact results

    An operation whose exact result is a binary64 number returns it. *)

Lemma rne_int u n k : rne u n -> u = IZR k -> n = k.
Proof.
  intros ([L U] & _) ->.
  assert (k < n + 1)%Z by (apply lt_IZR; rewrite plus_IZR; lra).
  assert (n < k + 1)%Z by (apply lt_IZR; rewrite plus_IZR; lra).
  lia.
Qed.

Lemma rounds_exact k e r :
  (0 <= k < 2 ^ 53)%Z -> (-1074 <= e)%Z -> IZR k * pow2 e < pow2 1024 ->
  rounds (IZR k * pow2 e) r -> xval r = IZR k * pow2 e.
Proof.
  intros Hk He Hlt (_ & E & n & G & N & X).
  assert (HE : (E <= e)%Z).
  { destruct G as [_ [->|[_ G]]]; [lia|].
    assert (pow2 (E + 52) < pow2 (53 + e)).
    { eapply Rle_lt_trans; [exact G|]. rewrite pow2_add, (pow2_IZR 53) by lia.
      apply Rmult_lt_compat_r; [apply pow2_pos|]. apply IZR_lt. lia. }
    apply pow2_lt_inv in H. lia. }
  assert (Hu : IZR k * pow2 e / pow2 E = IZR (k * 2 ^ (e - E))).
  { rewrite mult_IZR, <- pow2_IZR, pow2_sub by lia. field.
    apply Rgt_not_eq, pow2_pos. }
  rewrite (rne_int _ _ _ N Hu) in X. rewrite X, Rmin_left.
  - rewrite <- Hu. field. apply Rgt_not_eq, pow2_pos.
  - rewrite <- Hu. apply Rlt_le.
    replace (IZR k * pow2 e / pow2 E * pow2 E) with (IZR k * pow2 e); trivial.
    field. apply Rgt_not_eq, pow2_pos.
Qed.

Lemma nonneg_valid x : nonneg x = true -> valid_binary x = true.
Proof.
  destruct x as [|[]| |[] m e]; cbn [nonneg negb andb valid_binary]; trivial;
    discriminate.
Qed.

Lemma nonneg_lt_nnfin x : nonneg x = true -> xval x < pow2 1024 -> nnfin x = true.
Proof.
  intros H Hlt. destruct (nonneg_cases x H) as [ | -> ]; trivial.
  cbn [xval] in Hlt. lra.
Qed.

Lemma vale_rounds x k e :
  (0 <= k < 2 ^ 53)%Z -> (-1074 <= e)%Z -> IZR k * pow2 e < pow2 1024 ->
  rounds (IZR k * pow2 e) (Prim2SF x) -> vale x (IZR k * pow2 e).
Proof.
  intros Hk He Hlt R. pose proof (rounds_exact k e _ Hk He Hlt R) as Hv.
  split; trivial. apply nonneg_lt_nnfin; [eapply rounds_nonneg, R|]. now rewrite Hv.
Qed.

Lemma vale_mul x c a b k e :
  vale x a -> vale c b -> pf c -> a * b = IZR k * pow2 e ->
  (0 <= k < 2 ^ 53)%Z -> (-1074 <= e)%Z -> IZR k * pow2 e < pow2 1024 ->
  vale (x * c)%float (a * b).
Proof.
  intros [Fx <-] [_ <-] Hc Hab Hk He Hlt. rewrite Hab.
  apply vale_rounds; trivial. rewrite <- Hab, mul_spec.
  now apply SFmul_nnfin_rounds.
Qed.

Lemma vale_add x y a b k e :
  vale x a -> vale y b -> a + b = IZR k * pow2 e ->
  (0 <= k < 2 ^ 53)%Z -> (-1074 <= e)%Z -> IZR k * pow2 e < pow2 1024 ->
  vale (x + y)%float (a + b).
Proof.
  intros [Fx <-] [Fy <-] Hab Hk He Hlt. rewrite Hab.
  apply vale_rounds; trivial. rewrite <- Hab, add_spec.
  now apply SFadd_nnfin_rounds.
Qed.

Lemma small_lt_overflow k e :
  (0 <= k < 2 ^ 53)%Z -> (e <= 0)%Z -> IZR k * pow2 e < pow2 1024.
Proof.
  intros Hk He. apply Rlt_le_trans with (pow2 53 * pow2 e).
  - apply Rmult_lt_compat_r; [apply pow2_pos|].
    rewrite pow2_IZR by lia. apply IZR_lt. lia.
  - rewrite <- pow2_add. apply pow2_le. lia.
Qed.

Lemma xval_const m e k j :
  Zpos m = (k * 2 ^ j)%Z -> (0 <= j)%Z ->
  xval (S754_finite false m e) = IZR k * pow2 (j + e).
Proof.
  intros Hm Hj. cbn [xval]. rewrite Hm, mult_IZR, <- pow2_IZR, pow2_add by lia. ring.
Qed.

Lemma pow2_m1 : pow2 (-1) = / 2.
Proof. change (-1)%Z with (0 - 1)%Z. rewrite pow2_pred, pow2_0. lra. Qed.

End B64.

(* ================================================================= *)
(** * The quote engine *)

Import B64.

Local Open Scope float_scope.

(** ** Lookups in the two registries *)

Lemma getitem_MODALIDADES modalidad m :
  In (modalidad, m) MODALIDADES -> getitem MODALIDADES modalidad = Ok m.
Proof.
  intros [H|[H|[H|[]]]]; injection H as <- <-; reflexivity.
Qed.

Lemma getitem_PERFILES perfil pr :
  In (perfil, pr) PERFILES -> getitem PERFILES perfil = Ok pr.
Proof.
  intros [H|[H|[]]]; injection H as <- <-; reflexivity.
Qed.

Lemma getitem_absent {V : Type} (d : dict V) k :
  ~ In k (keys d) -> getitem d k = Raise (KeyError k).
Proof.
  induction d as [|[k' v] d IH]; cbn [getitem keys map fst In]; intros H; trivial.
  destruct (String.eqb_spec k k') as [->|Hne].
  - exfalso. apply H. now left.
  - apply IH. intros Hin. apply H. now right.
Qed.

Lemma getitem_present {V : Type} (d : dict V) k :
  In k (keys d) -> exists v, getitem d k = Ok v /\ In (k, v) d.
Proof.
  induction d as [|[k' v] d IH]; cbn [getitem keys map fst In]; intros H; [easy|].
  destruct (String.eqb_spec k k') as [->|Hne].
  - exists v. split; trivial. now left.
  - destruct H as [H|H]; [congruence|].
    destruct (IH H) as (v' & Hv & Hin). exists v'. split; trivial. now right.
Qed.

(** ** The shape of a quote *)

Lemma predecir_envio_ok modelo datos p modalidad perfil m pr :
  predict_proba modelo datos = Ok p ->
  getitem MODALIDADES modalidad = Ok m ->
  getitem PERFILES perfil = Ok pr ->
  predecir_envio (Some modelo) datos modalidad perfil =
  let tb := calcular_tiempo_base (Distancia_KM datos) in
  let cb := calcular_costo_base (Distancia_KM datos) peso_kg_default in
  let aj := ajuste_riesgo p tb cb in
  Ok {| prob_retraso := p;
        riesgo := snd aj;
        tiempo_horas := fst (fst aj) * tiempo m * tiempo pr;
        costo_usd := snd (fst aj) * costo m * costo pr |}.
Proof.
  intros Hp Hm Hpr. unfold predecir_envio, llamar_modelo.
  rewrite Hp. cbn [bind].
  destruct (ajuste_riesgo p _ _) as [[t c] n].
  rewrite Hm. cbn [bind]. rewrite Hpr. reflexivity.
Qed.

(** ** The tier thresholds *)

Lemma SFltb_not_nan c p : SFltb c p = true ->
  forall c', c' <> S754_nan -> SFcompare c' p <> None.
Proof.
  unfold SFltb. intros H c' Hc'.
  destruct p as [s|s| |s m e]; [| |destruct c; discriminate|];
    destruct c' as [s'|s'| |s' m' e']; cbn [SFcompare]; congruence.
Qed.

(** A probability above 0.4 and not above 0.6 is at most 0.6. *)
Lemma medio_leb p : (p >? 0.6) = false -> (p >? 0.4) = true -> (p <=? 0.6) = true.
Proof.
  rewrite !ltb_spec, leb_spec. intros H6 H4.
  apply SFltb_false_leb; trivial.
  apply (SFltb_not_nan _ _ H4); discriminate.
Qed.

Lemma leb_not_gtb c p : (p <=? c) = true -> (p >? c) = false.
Proof. rewrite ltb_spec, leb_spec. apply SFleb_not_ltb. Qed.

(** At most 0.4 is not above 0.6. *)
Lemma bajo_not_alto p : (p <=? 0.4) = true -> (p >? 0.6) = false.
Proof.
  intros H. pose proof (Prim2SF_valid p) as V.
  rewrite leb_spec in H. rewrite ltb_spec.
  assert (N4 : nonneg (Prim2SF 0.4) = true) by reflexivity.
  assert (N6 : nonneg (Prim2SF 0.6) = true) by reflexivity.
  assert (L46 : (fval 0.4 < fval 0.6)%R).
  { apply (ltb_fval 0.4 0.6 N4 N6). reflexivity. }
  destruct (nonneg (Prim2SF p)) eqn:Np.
  - apply (SFleb_xval _ _ Np N4) in H.
    destruct (SFltb (Prim2SF 0.6) (Prim2SF p)) eqn:E; trivial.
    apply (SFltb_xval _ _ N6 Np) in E. unfold fval in L46. lra.
  - unfold SFltb. destruct (Prim2SF p) as [s|[]| |[] m e];
      cbn [nonneg negb andb valid_binary] in *; try congruence; try reflexivity.
Qed.

Lemma ajuste_riesgo_spec p tb cb :
  ajuste_riesgo p tb cb =
  (tb * riskTimeMultiplier p, cb * riskCostMultiplier p, riskTier p).
Proof.
  unfold ajuste_riesgo, riskTimeMultiplier, riskCostMultiplier, riskTier.
  destruct (p >? 0.6) eqn:H6; trivial.
  destruct (p >? 0.4) eqn:H4; cbn [andb].
  - rewrite (medio_leb p H6 H4). reflexivity.
  - change 1.0 with 1. now rewrite !mul_one.
Qed.

(** C1: for every distance, every probability and every registered
    modality and profile, the quote's hours are
    [BaseTimeHours(d) * riskTimeMultiplier(p) * modality.time * profile.time]
    and its cost
    [BaseCostUsd(d, 10.0) * riskCostMultiplier(p) * modality.cost * profile.cost],
    with the registered multipliers the specification lists.  Both sides
    are the same binary64 number, which is within any tolerance. *)
Theorem C1_quote_formula :
  forall (modelo : clasificador) (datos : datos_envio) (p : float)
         (modalidad perfil : string) (m pr : multiplicadores),
    predict_proba modelo datos = Ok p ->
    In (modalidad, m) MODALIDADES ->
    In (perfil, pr) PERFILES ->
    MODALIDADES = [ ("económico"%string, {| tiempo := 1.3; costo := 0.8 |});
                    ("estándar"%string,  {| tiempo := 1.0; costo := 1.0 |});
                    ("express"%string,   {| tiempo := 0.7; costo := 1.5 |}) ] /\
    PERFILES = [ ("urgente"%string,   {| tiempo := 0.9; costo := 1.2 |});
                 ("económico"%string, {| tiempo := 1.1; costo := 0.8 |}) ] /\
    exists q,
      predecir_envio (Some modelo) datos modalidad perfil = Ok q /\
      tiempo_horas q =
        calcular_tiempo_base (Distancia_KM datos) * riskTimeMultiplier p
        * tiempo m * tiempo pr /\
      costo_usd q =
        calcular_costo_base (Distancia_KM datos) 10.0 * riskCostMultiplier p
        * costo m * costo pr.
Proof.
  intros modelo datos p modalidad perfil m pr Hp Hm Hpr.
  split; [reflexivity|]. split; [reflexivity|].
  apply getitem_MODALIDADES in Hm. apply getitem_PERFILES in Hpr.
  rewrite (predecir_envio_ok _ _ _ _ _ _ _ Hp Hm Hpr). cbv zeta.
  rewrite ajuste_riesgo_spec. cbn [fst snd].
  eexists. split; [reflexivity|]. split; reflexivity.
Qed.

Lemma C1_quote_formula_witness :
  exists q,
    predecir_envio (Some {| predict_proba := fun _ => Ok 0.75 |})
      {| Distancia_KM := 50; Trafico_Score := 3; Riesgo_Clima := 0;
         Ratio_Inv := 1; Waiting_Time := 10; Temperature := 25;
         Humidity := 60; Traffic_Num := 2 |} "express" "urgente" = Ok q /\
    tiempo_horas q = calcular_tiempo_base 50 * riskTimeMultiplier 0.75 * 0.7 * 0.9 /\
    costo_usd q = calcular_costo_base 50 10.0 * riskCostMultiplier 0.75 * 1.5 * 1.2.
Proof.
  apply (C1_quote_formula {| predict_proba := fun _ => Ok 0.75 |}
           {| Distancia_KM := 50; Trafico_Score := 3; Riesgo_Clima := 0;
              Ratio_Inv := 1; Waiting_Time := 10; Temperature := 25;
              Humidity := 60; Traffic_Num := 2 |} 0.75
           "express" "urgente" {| tiempo := 0.7; costo := 1.5 |}
           {| tiempo := 0.9; costo := 1.2 |}).
  - reflexivity.
  - cbn. right. right. left. reflexivity.
  - cbn. left. reflexivity.
Defined.

(** C2: the tier is a function of the probability alone, with the two
    breakpoints 0.6 and 0.4, each exclusive on the high side: above 0.6
    is high (time x1.5, cost x1.30); above 0.4 and at most 0.6 is medium
    (time x1.2, cost x1.15); at most 0.4 is low (time x1.0, cost x1.0).
    In particular 0.6 is medium, 0.4 is low, 0.61 is high and 0.0 is low.
    Every quote carries the tier of its own probability. *)
Theorem C2_risk_tier :
  (forall p tb cb, (p >? 0.6) = true ->
     ajuste_riesgo p tb cb = (tb * 1.5, cb * 1.30, alto)) /\
  (forall p tb cb, (0.4 <? p) = true -> (p <=? 0.6) = true ->
     ajuste_riesgo p tb cb = (tb * 1.2, cb * 1.15, medio)) /\
  (forall p tb cb, (p <=? 0.4) = true ->
     ajuste_riesgo p tb cb = (tb * 1.0, cb * 1.0, bajo)) /\
  (forall p tb cb tb' cb',
     snd (ajuste_riesgo p tb cb) = snd (ajuste_riesgo p tb' cb')) /\
  (forall p tb cb, snd (ajuste_riesgo p tb cb) = riskTier p) /\
  riskTier 0.6 = medio /\ riskTier 0.4 = bajo /\
  riskTier 0.61 = alto /\ riskTier 0.0 = bajo /\
  (forall modelo datos modalidad perfil q,
     predecir_envio modelo datos modalidad perfil = Ok q ->
     riesgo q = riskTier (prob_retraso q)).
Proof.
  repeat split.
  - intros p tb cb H. unfold ajuste_riesgo. now rewrite H.
  - intros p tb cb H4 H6. unfold ajuste_riesgo.
    rewrite (leb_not_gtb _ _ H6). now rewrite H4.
  - intros p tb cb H. unfold ajuste_riesgo.
    rewrite (bajo_not_alto _ H), (leb_not_gtb _ _ H).
    change 1.0 with 1. now rewrite !mul_one.
  - intros p tb cb tb' cb'. now rewrite !ajuste_riesgo_spec.
  - intros p tb cb. now rewrite ajuste_riesgo_spec.
  - intros modelo datos modalidad perfil q. unfold predecir_envio.
    destruct (llamar_modelo modelo datos) as [p|e]; cbn [bind]; [|discriminate].
    rewrite ajuste_riesgo_spec.
    destruct (getitem MODALIDADES modalidad) as [m|e]; cbn [bind]; [|discriminate].
    destruct (getitem PERFILES perfil) as [pr|e]; cbn [bind]; [|discriminate].
    intros H. injection H as <-. reflexivity.
Qed.

Lemma C2_risk_tier_witness :
  ajuste_riesgo 0.75 3 40 = (3 * 1.5, 40 * 1.30, alto) /\
  ajuste_riesgo 0.5 3 40 = (3 * 1.2, 40 * 1.15, medio) /\
  ajuste_riesgo 0.25 3 40 = (3 * 1.0, 40 * 1.0, bajo).
Proof.
  split; [|split].
  - apply (proj1 C2_risk_tier). reflexivity.
  - apply (proj1 (proj2 C2_risk_tier)); reflexivity.
  - apply (proj1 (proj2 (proj2 C2_risk_tier))). reflexivity.
Defined.

(** ** Errors *)

(** C5: a modality or a profile outside the registered sets (such as
    ["overnight"]) makes the quote operation raise [KeyError] on that key;
    no quote is produced and no multiplier is substituted. *)
Theorem C5_unregistered_key :
  forall (modelo : clasificador) (datos : datos_envio) (p : float)
         (modalidad perfil : string),
    predict_proba modelo datos = Ok p ->
    ~ In modalidad (keys MODALIDADES) \/ ~ In perfil (keys PERFILES) ->
    (exists k, predecir_envio (Some modelo) datos modalidad perfil = Raise (KeyError k)
               /\ (k = modalidad \/ k = perfil)) /\
    (~ In modalidad (keys MODALIDADES) ->
       predecir_envio (Some modelo) datos modalidad perfil
       = Raise (KeyError modalidad)) /\
    (In modalidad (keys MODALIDADES) ->
       predecir_envio (Some modelo) datos modalidad perfil
       = Raise (KeyError perfil)) /\
    predecir_envio (Some modelo) datos "overnight" perfil
    = Raise (KeyError "overnight").
Proof.
  intros modelo datos p modalidad perfil Hp Hkey.
  assert (Hm : ~ In modalidad (keys MODALIDADES) ->
               predecir_envio (Some modelo) datos modalidad perfil
               = Raise (KeyError modalidad)).
  { intros H. unfold predecir_envio, llamar_modelo. rewrite Hp. cbn [bind].
    destruct (ajuste_riesgo p _ _) as [[t c] n].
    now rewrite (getitem_absent _ _ H). }
  assert (Hpr : In modalidad (keys MODALIDADES) -> ~ In perfil (keys PERFILES) ->
               predecir_envio (Some modelo) datos modalidad perfil
               = Raise (KeyError perfil)).
  { intros Hin H. unfold predecir_envio, llamar_modelo. rewrite Hp. cbn [bind].
    destruct (ajuste_riesgo p _ _) as [[t c] n].
    destruct (getitem_present _ _ Hin) as (m & -> & _). cbn [bind].
    now rewrite (getitem_absent _ _ H). }
  assert (Hdec : In modalidad (keys MODALIDADES) \/ ~ In modalidad (keys MODALIDADES)).
  { destruct (in_dec string_dec modalidad (keys MODALIDADES)); auto. }
  repeat split.
  - destruct Hdec as [Hin|Hout].
    + destruct Hkey as [Hk|Hk]; [contradiction|].
      exists perfil. split; auto.
    + exists modalidad. split; auto.
  - exact Hm.
  - intros Hin. destruct Hkey as [Hk|Hk]; [contradiction|]. now apply Hpr.
  - unfold predecir_envio, llamar_modelo. rewrite Hp. cbn [bind].
    destruct (ajuste_riesgo p _ _) as [[t c] n]. reflexivity.
Qed.

Lemma C5_unregistered_key_witness :
  predecir_envio (Some {| predict_proba := fun _ => Ok 0.3 |})
    {| Distancia_KM := 50; Trafico_Score := 1; Riesgo_Clima := 0;
       Ratio_Inv := 1; Waiting_Time := 10; Temperature := 25;
       Humidity := 60; Traffic_Num := 0 |} "estándar" "premium"
  = Raise (KeyError "premium").
Proof.
  refine (proj1 (proj2 (proj2
    (C5_unregistered_key {| predict_proba := fun _ => Ok 0.3 |}
       {| Distancia_KM := 50; Trafico_Score := 1; Riesgo_Clima := 0;
          Ratio_Inv := 1; Waiting_Time := 10; Temperature := 25;
          Humidity := 60; Traffic_Num := 0 |} 0.3 "estándar" "premium"
       eq_refl _))) _).
  - right. cbn. intros [H|[H|[]]]; discriminate.
  - cbn. right. left. reflexivity.
Defined.

(** C6: while the classifier is unavailable no quote is produced and the
    failure is signalled.  A failed load is shown as an error by
    [load_model], which returns [None]; the comparator then draws no
    table, whatever the form holds, and the alerts are still drawn.
    Called on [None] the quote operation raises [AttributeError]; when the
    classifier raises, the quote operation raises the same exception. *)
Theorem C6_unavailable_model :
  (forall datos modalidad perfil,
     predecir_envio None datos modalidad perfil = Raise AttributeError) /\
  (forall modelo datos modalidad perfil e,
     predict_proba modelo datos = Raise e ->
     predecir_envio (Some modelo) datos modalidad perfil = Raise e) /\
  (forall e, load_model (Raise e)
             = (None, [st_error ("❌ Error cargando modelo: " ++ texto e)])) /\
  (forall f, tab1 None f = Ok []) /\
  (forall e f trafico_alert temp_alert hum_alert inv_ratio_alert waiting_alert,
     pagina (Raise e) f trafico_alert temp_alert hum_alert inv_ratio_alert waiting_alert
     = (st_error ("❌ Error cargando modelo: " ++ texto e)
          :: tab2 trafico_alert temp_alert hum_alert inv_ratio_alert waiting_alert,
        None)).
Proof.
  repeat split.
  intros modelo datos modalidad perfil e He.
  unfold predecir_envio, llamar_modelo. now rewrite He.
Qed.

Lemma C6_unavailable_model_witness :
  predecir_envio (Some {| predict_proba := fun _ => Raise (OtherError "not fitted") |})
    {| Distancia_KM := 50; Trafico_Score := 1; Riesgo_Clima := 0;
       Ratio_Inv := 1; Waiting_Time := 10; Temperature := 25;
       Humidity := 60; Traffic_Num := 0 |} "estándar" "urgente"
  = Raise (OtherError "not fitted").
Proof.
  apply (proj1 (proj2 C6_unavailable_model)). reflexivity.
Defined.

(** ** Alerts and encodings *)

(** C7: the alert evaluator reports four statuses, each from its own input
    alone: traffic is warning iff the traffic is Heavy, else ok; weather is
    warning iff temperature > 30 or humidity > 80, else ok; inventory is
    critical iff the ratio < 0.5, else ok; waiting is critical iff the
    minutes > 60, else ok. *)
Theorem C7_alerts :
  forall (t : Trafico) (temp_alert hum_alert : Z) (inv : float) (w : Z),
    map estado (tab2 t temp_alert hum_alert inv w) =
      [ Some (match t with Heavy => warning | _ => ok end);
        Some (if ((temp_alert >? 30) || (hum_alert >? 80))%Z then warning else ok);
        Some (if inv <? 0.5 then critical else ok);
        Some (if (w >? 60)%Z then critical else ok) ] /\
    (estado (alerta_trafico t) = Some warning <-> t = Heavy) /\
    (estado (alerta_trafico t) = Some ok <-> t <> Heavy) /\
    (estado (alerta_clima temp_alert hum_alert) = Some warning
       <-> (temp_alert > 30 \/ hum_alert > 80)%Z) /\
    (estado (alerta_clima temp_alert hum_alert) = Some ok
       <-> ~ (temp_alert > 30 \/ hum_alert > 80)%Z) /\
    (estado (alerta_inventario inv) = Some critical <-> (inv <? 0.5) = true) /\
    (estado (alerta_inventario inv) = Some ok <-> (inv <? 0.5) = false) /\
    (estado (alerta_espera w) = Some critical <-> (w > 60)%Z) /\
    (estado (alerta_espera w) = Some ok <-> ~ (w > 60)%Z).
Proof.
  intros t temp_alert hum_alert inv w.
  unfold tab2, alerta_trafico, alerta_clima, alerta_inventario, alerta_espera.
  cbn [map].
  destruct (Z.gtb_spec temp_alert 30); destruct (Z.gtb_spec hum_alert 80);
    destruct (Z.gtb_spec w 60); destruct (inv <? 0.5); destruct t;
    cbn [orb estado];
    repeat split; intros; try discriminate; try congruence; try lia; trivial.
Qed.

(** C8: for each traffic category the two encodings name the same
    category, [TrafficNum = TrafficScore - 1], in every feature record the
    comparator builds. *)
Theorem C8_traffic_encodings :
  (trafico_score Clear = 1 /\ trafico_score Detour = 2 /\ trafico_score Heavy = 3)%Z /\
  (trafico_num Clear = 0 /\ trafico_num Detour = 1 /\ trafico_num Heavy = 2)%Z /\
  (forall t, trafico_num t = trafico_score t - 1)%Z /\
  (forall t t', trafico_score t = trafico_score t' <-> trafico_num t = trafico_num t') /\
  (forall f : formulario,
     Trafico_Score (construir_datos f) = trafico_score (trafico f) /\
     Traffic_Num (construir_datos f) = trafico_num (trafico f) /\
     Traffic_Num (construir_datos f) = (Trafico_Score (construir_datos f) - 1)%Z).
Proof.
  repeat split; try (destruct t; reflexivity);
    try (destruct t, t'; cbn; intros; congruence);
    cbn [construir_datos Trafico_Score Traffic_Num];
    destruct (trafico f); reflexivity.
Qed.

(* ================================================================= *)
(** * The base estimator *)

Lemma ltb_leb x y : (x <? y) = true -> (x <=? y) = true.
Proof.
  rewrite ltb_spec, leb_spec. unfold SFltb, SFleb.
  destruct (SFcompare _ _) as [[]|]; trivial; discriminate.
Qed.

Lemma ltb_leb_trans c x y :
  nn c -> (c <? x) = true -> (x <=? y) = true -> (c <? y) = true.
Proof.
  intros Hc Hcx Hxy.
  pose proof (leb_fle _ _ Hc (ltb_leb _ _ Hcx)) as (_ & Hx & _).
  pose proof (leb_fle _ _ Hx Hxy) as (_ & Hy & Hle).
  apply (ltb_fval _ _ Hc Hx) in Hcx. apply (ltb_fval _ _ Hc Hy).
  apply Rlt_le_trans with (fval x); trivial.
Qed.

Lemma fle_of_leb x y : (0 <=? x) = true -> (x <=? y) = true -> fle x y.
Proof. intros H0 H. apply leb_fle; trivial. now apply nn_leb0. Qed.

Lemma tiempo_base_fle d1 d2 :
  fle d1 d2 -> fle (calcular_tiempo_base d1) (calcular_tiempo_base d2).
Proof.
  intros H. unfold calcular_tiempo_base.
  apply fle_add_l; [reflexivity|]. apply fle_div_r; [reflexivity|exact H].
Qed.

Lemma costo_base_fle d1 d2 w1 w2 :
  fle d1 d2 -> fle w1 w2 ->
  fle (calcular_costo_base d1 w1) (calcular_costo_base d2 w2).
Proof.
  intros Hd Hw. unfold calcular_costo_base.
  apply fle_add.
  - apply fle_add_r; [reflexivity|]. apply fle_mul_l; [reflexivity|exact Hd].
  - apply fle_mul_l; [reflexivity|exact Hw].
Qed.

(** Strict growth of [f 0 < f 1 < ... < f n], checked term by term. *)
Definition creciente_hasta (f : Z -> float) (n : nat) : bool :=
  forallb (fun i => nonneg (Prim2SF (f (Z.of_nat i)))
                    && nonneg (Prim2SF (f (Z.of_nat (S i))))
                    && (f (Z.of_nat i) <? f (Z.of_nat (S i))))
          (seq 0 n).

Lemma creciente_hasta_lt f n :
  creciente_hasta f n = true ->
  forall i j : Z, (0 <= i < j)%Z -> (j <= Z.of_nat n)%Z -> (f i <? f j) = true.
Proof.
  unfold creciente_hasta. rewrite forallb_forall. intros Hall.
  assert (Hstep : forall k : nat, (k < n)%nat ->
            nn (f (Z.of_nat k)) /\ nn (f (Z.of_nat (S k))) /\
            (fval (f (Z.of_nat k)) < fval (f (Z.of_nat (S k))))%R).
  { intros k Hk. specialize (Hall k ltac:(apply in_seq; lia)).
    apply andb_prop in Hall as [Hall Hlt]. apply andb_prop in Hall as [Ha Hb].
    repeat split; trivial. now apply (ltb_fval _ _ Ha Hb). }
  assert (Hchain : forall (a : nat) (b : nat), (a < b)%nat -> (b <= n)%nat ->
            nn (f (Z.of_nat a)) /\ nn (f (Z.of_nat b)) /\
            (fval (f (Z.of_nat a)) < fval (f (Z.of_nat b)))%R).
  { intros a b Hab. induction Hab as [|b Hab IH]; intros Hb.
    - apply Hstep. lia.
    - destruct (IH ltac:(lia)) as (Ha & _ & Hlt).
      destruct (Hstep b ltac:(lia)) as (_ & Hb' & Hlt').
      repeat split; trivial. lra. }
  intros i j Hij Hj.
  destruct (Hchain (Z.to_nat i) (Z.to_nat j) ltac:(lia) ltac:(lia)) as (Hi & Hj' & Hlt).
  rewrite !Z2Nat.id in * by lia. now apply (ltb_fval _ _ Hi Hj').
Qed.

(** C3, as the code has it: [BaseTimeHours(d)] is [d / 50.0 + 2.0] in
    binary64 and [BaseTimeHours(0) = 2.0]; it never decreases when the
    distance grows from any [d >= 0], and it grows strictly from each
    whole-number distance of 0..2000 km to the next. *)
Theorem C3_tiempo_base :
  (forall d, calcular_tiempo_base d = d / 50.0 + 2.0) /\
  calcular_tiempo_base 0 = 2.0 /\
  (forall d1 d2, (0 <=? d1) = true -> (d1 <=? d2) = true ->
     (calcular_tiempo_base d1 <=? calcular_tiempo_base d2) = true) /\
  (forall i j : Z, (0 <= i < j)%Z -> (j <= 2000)%Z ->
     (calcular_tiempo_base (float_of_int i)
      <? calcular_tiempo_base (float_of_int j)) = true).
Proof.
  split; [reflexivity|]. split; [reflexivity|]. split.
  - intros d1 d2 H0 H. apply fle_leb, tiempo_base_fle, fle_of_leb; trivial.
  - intros i j Hij Hj.
    refine (creciente_hasta_lt
              (fun n => calcular_tiempo_base (float_of_int n)) 2000 _ i j Hij _).
    + vm_compute. reflexivity.
    + exact Hj.
Qed.

Lemma C3_tiempo_base_witness :
  (calcular_tiempo_base 50 <=? calcular_tiempo_base 120.5) = true /\
  (calcular_tiempo_base (float_of_int 49) <? calcular_tiempo_base (float_of_int 50)) = true.
Proof.
  split.
  - apply (proj1 (proj2 (proj2 C3_tiempo_base))); reflexivity.
  - apply (proj2 (proj2 (proj2 C3_tiempo_base))); lia.
Defined.

(** C3 as stated fails: 100 km and the next binary64 above it are two
    distinct distances with the same base time, 4 hours. *)
Lemma C3_counterexample :
  (0 <=? 100) = true /\ (100 <? 100.00000000000001) = true /\
  calcular_tiempo_base 100 = 4 /\ calcular_tiempo_base 100.00000000000001 = 4 /\
  (calcular_tiempo_base 100 <? calcular_tiempo_base 100.00000000000001) = false.
Proof. repeat split. Qed.

Lemma mul_comm x y : x * y = y * x.
Proof. apply Prim2SF_inj. rewrite !mul_spec. apply SFmul_comm. Qed.

Lemma float_of_int_vale n : (0 <= n < 2 ^ 53)%Z -> vale (float_of_int n) (IZR n).
Proof.
  intros Hn. unfold float_of_int.
  assert (R : rounds (IZR n * pow2 0) (binary_normalize prec emax n 0 false)).
  { destruct n as [|p|p]; [| |lia].
    - cbn [binary_normalize]. rewrite Rmult_0_l. apply rounds_zero.
    - apply binary_round_rounds. }
  replace (IZR n) with (IZR n * pow2 0)%R by (rewrite pow2_0; ring).
  apply vale_rounds; try lia.
  - apply small_lt_overflow; lia.
  - rewrite Prim2SF_SF2Prim; trivial. apply nonneg_valid. eapply rounds_nonneg, R.
Qed.

Lemma vale_half : vale 0.5 (IZR 1 * pow2 (-1)).
Proof.
  split; [reflexivity|]. unfold fval.
  change (Prim2SF 0.5) with (S754_finite false 4503599627370496 (-53)).
  rewrite (xval_const _ _ 1 52) by (reflexivity || lia). reflexivity.
Qed.

Lemma vale_five : vale 5.0 (IZR 5 * pow2 0).
Proof.
  split; [reflexivity|]. unfold fval.
  change (Prim2SF 5.0) with (S754_finite false 5629499534213120 (-50)).
  rewrite (xval_const _ _ 5 50) by (reflexivity || lia). reflexivity.
Qed.

(** On whole numbers of kilometres and kilograms the base cost is exact. *)
Lemma costo_base_entero i j :
  (0 <= i <= 2 ^ 50)%Z -> (0 <= j <= 2 ^ 50)%Z ->
  vale (calcular_costo_base (float_of_int i) (float_of_int j))
       (5 + IZR i / 2 + IZR j).
Proof.
  intros Hi Hj. unfold calcular_costo_base.
  pose proof (float_of_int_vale i ltac:(lia)) as Vi.
  pose proof (float_of_int_vale j ltac:(lia)) as Vj.
  change 1.0 with 1. rewrite (mul_comm 1), mul_one, (mul_comm 0.5).
  assert (P2 : pow2 (-1) = (/ 2)%R) by apply pow2_m1.
  assert (V1 : vale (float_of_int i * 0.5) (IZR i * (IZR 1 * pow2 (-1)))).
  { apply (vale_mul _ _ _ _ i (-1)); trivial; try lia.
    - apply vale_half.
    - reflexivity.
    - ring.
    - apply small_lt_overflow; lia. }
  assert (V2 : vale (5.0 + float_of_int i * 0.5)
                 (IZR 5 * pow2 0 + IZR i * (IZR 1 * pow2 (-1)))).
  { apply (vale_add _ _ _ _ (10 + i) (-1)); trivial; try lia.
    - apply vale_five.
    - rewrite plus_IZR, pow2_0, P2. lra.
    - apply small_lt_overflow; lia. }
  replace (5 + IZR i / 2 + IZR j)%R
    with (IZR 5 * pow2 0 + IZR i * (IZR 1 * pow2 (-1)) + IZR j)%R
    by (rewrite pow2_0, P2; lra).
  apply (vale_add _ _ _ _ (10 + i + 2 * j) (-1)); trivial; try lia.
  - rewrite !plus_IZR, mult_IZR, pow2_0, P2. lra.
  - apply small_lt_overflow; lia.
Qed.

Lemma vale_ltb x y a b : vale x a -> vale y b -> (a < b)%R -> (x <? y) = true.
Proof.
  intros [Fx <-] [Fy <-] H.
  apply ltb_fval; trivial; now apply nnfin_nonneg.
Qed.

(** C4, as the code has it: [BaseCostUsd(d, w)] is [5.0 + 0.5 * d + 1.0 * w]
    in binary64, the quote engine passes the weight 10.0, and
    [BaseCostUsd(0, 0) = 5.0]; the cost never decreases when either
    argument grows from a non-negative value, and on whole numbers of
    kilometres and kilograms it grows strictly with each of them. *)
Theorem C4_costo_base :
  (forall d w, calcular_costo_base d w = 5.0 + 0.5 * d + 1.0 * w) /\
  peso_kg_default = 10.0 /\
  calcular_costo_base 0 0 = 5.0 /\
  (forall d1 d2 w, (0 <=? d1) = true -> (d1 <=? d2) = true -> (0 <=? w) = true ->
     (calcular_costo_base d1 w <=? calcular_costo_base d2 w) = true) /\
  (forall d w1 w2, (0 <=? d) = true -> (0 <=? w1) = true -> (w1 <=? w2) = true ->
     (calcular_costo_base d w1 <=? calcular_costo_base d w2) = true) /\
  (forall i1 i2 j : Z, (0 <= i1 < i2)%Z -> (i2 <= 2 ^ 50)%Z -> (0 <= j <= 2 ^ 50)%Z ->
     (calcular_costo_base (float_of_int i1) (float_of_int j)
      <? calcular_costo_base (float_of_int i2) (float_of_int j)) = true) /\
  (forall i j1 j2 : Z, (0 <= i <= 2 ^ 50)%Z -> (0 <= j1 < j2)%Z -> (j2 <= 2 ^ 50)%Z ->
     (calcular_costo_base (float_of_int i) (float_of_int j1)
      <? calcular_costo_base (float_of_int i) (float_of_int j2)) = true).
Proof.
  repeat split.
  - intros d1 d2 w H0 Hd Hw. apply fle_leb, costo_base_fle.
    + now apply fle_of_leb.
    + apply fle_refl. now apply nn_leb0.
  - intros d w1 w2 H0 Hw0 Hw. apply fle_leb, costo_base_fle.
    + apply fle_refl. now apply nn_leb0.
    + now apply fle_of_leb.
  - intros i1 i2 j Hi Hi2 Hj.
    eapply vale_ltb; [apply costo_base_entero; lia|apply costo_base_entero; lia|].
    assert (IZR i1 < IZR i2)%R by (apply IZR_lt; lia). lra.
  - intros i j1 j2 Hi Hj Hj2.
    eapply vale_ltb; [apply costo_base_entero; lia|apply costo_base_entero; lia|].
    assert (IZR j1 < IZR j2)%R by (apply IZR_lt; lia). lra.
Qed.

Lemma C4_costo_base_witness :
  (calcular_costo_base 50 10 <=? calcular_costo_base 120.5 10) = true /\
  (calcular_costo_base 50 10 <=? calcular_costo_base 50 12.25) = true /\
  (calcular_costo_base (float_of_int 49) (float_of_int 10)
   <? calcular_costo_base (float_of_int 50) (float_of_int 10)) = true /\
  (calcular_costo_base (float_of_int 50) (float_of_int 10)
   <? calcular_costo_base (float_of_int 50) (float_of_int 11)) = true.
Proof.
  split; [|split; [|split]].
  - apply (proj1 (proj2 (proj2 (proj2 C4_costo_base)))); reflexivity.
  - apply (proj1 (proj2 (proj2 (proj2 (proj2 C4_costo_base))))); reflexivity.
  - apply (proj1 (proj2 (proj2 (proj2 (proj2 (proj2 C4_costo_base)))))); lia.
  - apply (proj2 (proj2 (proj2 (proj2 (proj2 (proj2 C4_costo_base)))))); lia.
Defined.

(** C4 as stated fails: two distinct distances, and two distinct weights,
    with the same base cost. *)
Lemma C4_counterexample :
  ((7 <? 7.000000000000001) = true /\
   calcular_costo_base 7 10 = 18.5 /\
   calcular_costo_base 7.000000000000001 10 = 18.5 /\
   (calcular_costo_base 7 10 <? calcular_costo_base 7.000000000000001 10) = false) /\
  ((10 <? 10.000000000000002) = true /\
   calcular_costo_base 100 10 = 65 /\
   calcular_costo_base 100 10.000000000000002 = 65 /\
   (calcular_costo_base 100 10 <? calcular_costo_base 100 10.000000000000002) = false).
Proof. repeat split. Qed.

(* ================================================================= *)
(** * Quotes for non-negative distances *)

Lemma pf_MODALIDADES k m : In (k, m) MODALIDADES -> pf (tiempo m) /\ pf (costo m).
Proof. intros [H|[H|[H|[]]]]; injection H as <- <-; split; reflexivity. Qed.

Lemma pf_PERFILES k m : In (k, m) PERFILES -> pf (tiempo m) /\ pf (costo m).
Proof. intros [H|[H|[]]]; injection H as <- <-; split; reflexivity. Qed.

Lemma pf_riskTime p : pf (riskTimeMultiplier p).
Proof.
  unfold riskTimeMultiplier.
  destruct (p >? 0.6); [reflexivity|]. destruct (_ && _); reflexivity.
Qed.

Lemma pf_riskCost p : pf (riskCostMultiplier p).
Proof.
  unfold riskCostMultiplier.
  destruct (p >? 0.6); [reflexivity|]. destruct (_ && _); reflexivity.
Qed.

Lemma const_le a b : nn a -> (a <=? b) = true -> (fval a <= fval b)%R.
Proof. intros Ha H. now destruct (leb_fle _ _ Ha H) as (_ & _ & ?). Qed.

(** A higher probability never has a smaller multiplier. *)
Lemma risk_mono p1 p2 :
  (p1 <=? p2) = true ->
  (fval (riskTimeMultiplier p1) <= fval (riskTimeMultiplier p2))%R /\
  (fval (riskCostMultiplier p1) <= fval (riskCostMultiplier p2))%R.
Proof.
  intros H. unfold riskTimeMultiplier, riskCostMultiplier.
  assert (N6 : nn 0.6) by reflexivity. assert (N4 : nn 0.4) by reflexivity.
  destruct (p1 >? 0.6) eqn:A1.
  - rewrite (ltb_leb_trans _ _ _ N6 A1 H). split; apply Rle_refl.
  - destruct (0.4 <? p1) eqn:B1; cbn [andb].
    + rewrite (medio_leb _ A1 B1).
      pose proof (ltb_leb_trans _ _ _ N4 B1 H) as B2. rewrite B2.
      destruct (p2 >? 0.6) eqn:A2; cbn [andb].
      * split; apply const_le; reflexivity.
      * rewrite (medio_leb _ A2 B2). split; apply Rle_refl.
    + destruct (p2 >? 0.6); [split; apply const_le; reflexivity|].
      destruct (_ && _); split; apply const_le; reflexivity.
Qed.

Lemma quote_formula modelo datos p modalidad perfil m pr :
  predict_proba modelo datos = Ok p ->
  In (modalidad, m) MODALIDADES -> In (perfil, pr) PERFILES ->
  predecir_envio (Some modelo) datos modalidad perfil =
  Ok {| prob_retraso := p;
        riesgo := riskTier p;
        tiempo_horas := calcular_tiempo_base (Distancia_KM datos)
                        * riskTimeMultiplier p * tiempo m * tiempo pr;
        costo_usd := calcular_costo_base (Distancia_KM datos) peso_kg_default
                     * riskCostMultiplier p * costo m * costo pr |}.
Proof.
  intros Hp Hm Hpr.
  apply getitem_MODALIDADES in Hm. apply getitem_PERFILES in Hpr.
  rewrite (predecir_envio_ok _ _ _ _ _ _ _ Hp Hm Hpr). cbv zeta.
  now rewrite ajuste_riesgo_spec.
Qed.

Lemma fle_mul3 a b c1 c2 c3 :
  pf c1 -> pf c2 -> pf c3 -> fle a b -> fle (a * c1 * c2 * c3) (b * c1 * c2 * c3).
Proof. intros H1 H2 H3 H. now repeat apply fle_mul_r. Qed.

Lemma tiempo_base_ge2 d : (0 <=? d) = true -> fle 2.0 (calcular_tiempo_base d).
Proof.
  intros H. change 2.0 with (calcular_tiempo_base 0).
  apply tiempo_base_fle, fle_of_leb; trivial.
Qed.

Lemma costo_base_ge15 d :
  (0 <=? d) = true -> fle 15.0 (calcular_costo_base d peso_kg_default).
Proof.
  intros H. change 15.0 with (calcular_costo_base 0 peso_kg_default).
  apply costo_base_fle; [now apply fle_of_leb|now apply fle_refl].
Qed.

(** C9: for a distance [d >= 0], a probability in [0,1] and a registered
    modality and profile, a quote is produced whose probability is in
    [0,1] and whose hours and cost are strictly positive. *)
Theorem C9_positive_quote :
  forall (modelo : clasificador) (datos : datos_envio) (p : float)
         (modalidad perfil : string) (m pr : multiplicadores),
    predict_proba modelo datos = Ok p ->
    In (modalidad, m) MODALIDADES ->
    In (perfil, pr) PERFILES ->
    (0 <=? Distancia_KM datos) = true ->
    (0 <=? p) = true -> (p <=? 1) = true ->
    exists q,
      predecir_envio (Some modelo) datos modalidad perfil = Ok q /\
      (0 <=? prob_retraso q) = true /\ (prob_retraso q <=? 1) = true /\
      (0 <? tiempo_horas q) = true /\ (0 <? costo_usd q) = true /\
      (2.0 <=? calcular_tiempo_base (Distancia_KM datos)) = true /\
      (15.0 <=? calcular_costo_base (Distancia_KM datos) peso_kg_default) = true.
Proof.
  intros modelo datos p modalidad perfil m pr Hp Hm Hpr Hd Hp0 Hp1.
  rewrite (quote_formula _ _ _ _ _ _ _ Hp Hm Hpr).
  eexists. split; [reflexivity|]. cbn [prob_retraso tiempo_horas costo_usd].
  pose proof (tiempo_base_ge2 _ Hd) as Ht. pose proof (costo_base_ge15 _ Hd) as Hc.
  destruct (pf_MODALIDADES _ _ Hm) as [Hmt Hmc].
  destruct (pf_PERFILES _ _ Hpr) as [Hpt Hpc].
  repeat split; trivial; try (now apply fle_leb).
  - apply (fle_pos _ _ (fle_mul3 _ _ _ _ _ (pf_riskTime p) Hmt Hpt Ht)).
    unfold riskTimeMultiplier.
    destruct Hm as [H|[H|[H|[]]]]; injection H as <- <-;
      destruct Hpr as [H|[H|[]]]; injection H as <- <-;
      destruct (p >? 0.6); try reflexivity; destruct (_ && _); reflexivity.
  - apply (fle_pos _ _ (fle_mul3 _ _ _ _ _ (pf_riskCost p) Hmc Hpc Hc)).
    unfold riskCostMultiplier.
    destruct Hm as [H|[H|[H|[]]]]; injection H as <- <-;
      destruct Hpr as [H|[H|[]]]; injection H as <- <-;
      destruct (p >? 0.6); try reflexivity; destruct (_ && _); reflexivity.
Qed.

Lemma C9_positive_quote_witness :
  exists q,
    predecir_envio (Some {| predict_proba := fun _ => Ok 0.75 |})
      {| Distancia_KM := 50; Trafico_Score := 3; Riesgo_Clima := 0;
         Ratio_Inv := 1; Waiting_Time := 10; Temperature := 25;
         Humidity := 60; Traffic_Num := 2 |} "express" "urgente" = Ok q /\
    (0 <=? prob_retraso q) = true /\ (prob_retraso q <=? 1) = true /\
    (0 <? tiempo_horas q) = true /\ (0 <? costo_usd q) = true /\
    (2.0 <=? calcular_tiempo_base 50) = true /\
    (15.0 <=? calcular_costo_base 50 peso_kg_default) = true.
Proof.
  apply (C9_positive_quote {| predict_proba := fun _ => Ok 0.75 |}
           {| Distancia_KM := 50; Trafico_Score := 3; Riesgo_Clima := 0;
              Ratio_Inv := 1; Waiting_Time := 10; Temperature := 25;
              Humidity := 60; Traffic_Num := 2 |} 0.75
           "express" "urgente" {| tiempo := 0.7; costo := 1.5 |}
           {| tiempo := 0.9; costo := 1.2 |}); try reflexivity.
  - cbn. right. right. left. reflexivity.
  - cbn. left. reflexivity.
Defined.

(** C10: for a fixed distance [d >= 0] (a distance is never negative:
    the form supplies 1..2000), a fixed modality and a fixed profile,
    raising the probability never lowers the quote's hours or its cost. *)
Theorem C10_monotone_in_probability :
  forall (modelo1 modelo2 : clasificador) (datos : datos_envio) (p1 p2 : float)
         (modalidad perfil : string) (m pr : multiplicadores),
    predict_proba modelo1 datos = Ok p1 ->
    predict_proba modelo2 datos = Ok p2 ->
    In (modalidad, m) MODALIDADES ->
    In (perfil, pr) PERFILES ->
    (0 <=? Distancia_KM datos) = true ->
    (p1 <=? p2) = true ->
    exists q1 q2,
      predecir_envio (Some modelo1) datos modalidad perfil = Ok q1 /\
      predecir_envio (Some modelo2) datos modalidad perfil = Ok q2 /\
      (tiempo_horas q1 <=? tiempo_horas q2) = true /\
      (costo_usd q1 <=? costo_usd q2) = true.
Proof.
  intros modelo1 modelo2 datos p1 p2 modalidad perfil m pr H1 H2 Hm Hpr Hd Hp.
  rewrite (quote_formula _ _ _ _ _ _ _ H1 Hm Hpr).
  rewrite (quote_formula _ _ _ _ _ _ _ H2 Hm Hpr).
  do 2 eexists. split; [reflexivity|]. split; [reflexivity|].
  cbn [tiempo_horas costo_usd].
  destruct (tiempo_base_ge2 _ Hd) as (_ & Nt & _).
  destruct (costo_base_ge15 _ Hd) as (_ & Nc & _).
  destruct (pf_MODALIDADES _ _ Hm) as [Hmt Hmc].
  destruct (pf_PERFILES _ _ Hpr) as [Hpt Hpc].
  destruct (risk_mono _ _ Hp) as [Rt Rc].
  split; apply fle_leb; repeat apply fle_mul_r; trivial;
    apply fle_mul_const; trivial;
    first [apply pf_riskTime | apply pf_riskCost].
Qed.

Lemma C10_monotone_in_probability_witness :
  exists q1 q2,
    predecir_envio (Some {| predict_proba := fun _ => Ok 0.3 |})
      {| Distancia_KM := 50; Trafico_Score := 3; Riesgo_Clima := 0;
         Ratio_Inv := 1; Waiting_Time := 10; Temperature := 25;
         Humidity := 60; Traffic_Num := 2 |} "express" "urgente" = Ok q1 /\
    predecir_envio (Some {| predict_proba := fun _ => Ok 0.75 |})
      {| Distancia_KM := 50; Trafico_Score := 3; Riesgo_Clima := 0;
         Ratio_Inv := 1; Waiting_Time := 10; Temperature := 25;
         Humidity := 60; Traffic_Num := 2 |} "express" "urgente" = Ok q2 /\
    (tiempo_horas q1 <=? tiempo_horas q2) = true /\
    (costo_usd q1 <=? costo_usd q2) = true.
Proof.
  apply (C10_monotone_in_probability
           {| predict_proba := fun _ => Ok 0.3 |}
           {| predict_proba := fun _ => Ok 0.75 |}
           {| Distancia_KM := 50; Trafico_Score := 3; Riesgo_Clima := 0;
              Ratio_Inv := 1; Waiting_Time := 10; Temperature := 25;
              Humidity := 60; Traffic_Num := 2 |} 0.3 0.75
           "express" "urgente" {| tiempo := 0.7; costo := 1.5 |}
           {| tiempo := 0.9; costo := 1.2 |}); try reflexivity.
  - cbn. right. right. left. reflexivity.
  - cbn. left. reflexivity.
Defined.

(* ================================================================= *)
(** * Further properties of the calculator *)

(** ** When a quote is produced *)

(** X1: a quote is only ever returned when the classifier is loaded and
    returned a probability for the request, and the modality and the
    profile are both registered; the quote carries that probability. *)
Theorem X1_quote_only_if :
  forall (modelo : option clasificador) (datos : datos_envio)
         (modalidad perfil : string) (q : prediccion),
    predecir_envio modelo datos modalidad perfil = Ok q ->
    (exists m, modelo = Some m /\ predict_proba m datos = Ok (prob_retraso q)) /\
    In modalidad (keys MODALIDADES) /\ In perfil (keys PERFILES).
Proof.
  intros modelo datos modalidad perfil q. unfold predecir_envio, llamar_modelo.
  destruct modelo as [m|]; [|discriminate].
  destruct (predict_proba m datos) as [p|e] eqn:Hp; cbn [bind]; [|discriminate].
  destruct (ajuste_riesgo p _ _) as [[t c] n].
  destruct (in_dec string_dec modalidad (keys MODALIDADES)) as [Hm|Hm];
    [|rewrite (getitem_absent _ _ Hm); discriminate].
  destruct (getitem_present _ _ Hm) as (mm & -> & _). cbn [bind].
  destruct (in_dec string_dec perfil (keys PERFILES)) as [Hpr|Hpr];
    [|rewrite (getitem_absent _ _ Hpr); discriminate].
  destruct (getitem_present _ _ Hpr) as (pp & -> & _). cbn [bind].
  intros H. injection H as <-. cbn [prob_retraso].
  repeat split; trivial. now exists m.
Qed.

Lemma X1_quote_only_if_witness :
  (exists m, Some {| predict_proba := fun _ => Ok 0.75 |} = Some m /\
     predict_proba m
       {| Distancia_KM := 50; Trafico_Score := 3; Riesgo_Clima := 0;
          Ratio_Inv := 1; Waiting_Time := 10; Temperature := 25;
          Humidity := 60; Traffic_Num := 2 |} = Ok 0.75) /\
  In "express"%string (keys MODALIDADES) /\ In "urgente"%string (keys PERFILES).
Proof.
  exact (X1_quote_only_if (Some {| predict_proba := fun _ => Ok 0.75 |})
           {| Distancia_KM := 50; Trafico_Score := 3; Riesgo_Clima := 0;
              Ratio_Inv := 1; Waiting_Time := 10; Temperature := 25;
              Humidity := 60; Traffic_Num := 2 |} "express" "urgente" _ eq_refl).
Defined.

(** X2: a quote reads nothing of the request but its distance and the
    classifier's probability: two requests with the same distance and the
    same probability get the same quote, whatever their other features. *)
Theorem X2_quote_depends_on_distance_and_probability :
  forall (modelo1 modelo2 : clasificador) (datos1 datos2 : datos_envio)
         (modalidad perfil : string),
    predict_proba modelo1 datos1 = predict_proba modelo2 datos2 ->
    Distancia_KM datos1 = Distancia_KM datos2 ->
    predecir_envio (Some modelo1) datos1 modalidad perfil
    = predecir_envio (Some modelo2) datos2 modalidad perfil.
Proof.
  intros modelo1 modelo2 datos1 datos2 modalidad perfil Hp Hd.
  unfold predecir_envio, llamar_modelo. now rewrite Hp, Hd.
Qed.

Lemma X2_quote_depends_on_distance_and_probability_witness :
  predecir_envio (Some {| predict_proba := fun _ => Ok 0.5 |})
    {| Distancia_KM := 50; Trafico_Score := 3; Riesgo_Clima := 1;
       Ratio_Inv := 0.25; Waiting_Time := 90; Temperature := 35;
       Humidity := 85; Traffic_Num := 2 |} "express" "urgente"
  = predecir_envio (Some {| predict_proba := fun _ => Ok 0.5 |})
    {| Distancia_KM := 50; Trafico_Score := 1; Riesgo_Clima := 0;
       Ratio_Inv := 1; Waiting_Time := 10; Temperature := 25;
       Humidity := 60; Traffic_Num := 0 |} "express" "urgente".
Proof.
  apply X2_quote_depends_on_distance_and_probability; reflexivity.
Defined.

(** ** The comparator's table *)

(** X3: with the classifier loaded, the button pressed and a registered
    profile, the comparator draws one table of three rows, in the order
    económico, estándar, express; each row holds the quote of its
    modality, and all three carry the same probability and the same
    tier. *)
Theorem X3_tab1_table :
  forall (modelo : clasificador) (f : formulario) (p : float) (pr : multiplicadores),
    predict_proba modelo (construir_datos f) = Ok p ->
    In (perfil f, pr) PERFILES ->
    calcular f = true ->
    exists qe qs qx,
      tab1 (Some modelo) f
      = Ok [st_dataframe [("económico"%string, qe); ("estándar"%string, qs);
                          ("express"%string, qx)]] /\
      predecir_envio (Some modelo) (construir_datos f) "económico" (perfil f) = Ok qe /\
      predecir_envio (Some modelo) (construir_datos f) "estándar" (perfil f) = Ok qs /\
      predecir_envio (Some modelo) (construir_datos f) "express" (perfil f) = Ok qx /\
      prob_retraso qe = p /\ prob_retraso qs = p /\ prob_retraso qx = p /\
      riesgo qe = riskTier p /\ riesgo qs = riskTier p /\ riesgo qx = riskTier p.
Proof.
  intros modelo f p pr Hp Hpr Hc. unfold tab1. rewrite Hc.
  cbn [keys MODALIDADES map fst filas].
  rewrite (quote_formula _ _ p "económico" _ {| tiempo := 1.3; costo := 0.8 |} pr Hp
             ltac:(cbn; auto) Hpr).
  rewrite (quote_formula _ _ p "estándar" _ {| tiempo := 1.0; costo := 1.0 |} pr Hp
             ltac:(cbn; auto) Hpr).
  rewrite (quote_formula _ _ p "express" _ {| tiempo := 0.7; costo := 1.5 |} pr Hp
             ltac:(cbn; auto) Hpr).
  cbn [bind]. do 3 eexists. repeat split.
Qed.

Lemma X3_tab1_table_witness :
  exists qe qs qx,
    tab1 (Some {| predict_proba := fun _ => Ok 0.75 |})
      {| distancia_km := 50; waiting := 10; trafico := Heavy; temp := 25;
         hum := 60; inv_ratio := 1; perfil := "urgente"; calcular := true |}
    = Ok [st_dataframe [("económico"%string, qe); ("estándar"%string, qs);
                        ("express"%string, qx)]] /\
    riesgo qe = alto /\ riesgo qs = alto /\ riesgo qx = alto.
Proof.
  destruct (X3_tab1_table {| predict_proba := fun _ => Ok 0.75 |}
              {| distancia_km := 50; waiting := 10; trafico := Heavy; temp := 25;
                 hum := 60; inv_ratio := 1; perfil := "urgente"; calcular := true |}
              0.75 {| tiempo := 0.9; costo := 1.2 |} eq_refl
              (or_introl eq_refl) eq_refl)
    as (qe & qs & qx & H & _ & _ & _ & _ & _ & _ & He & Hs & Hx).
  exists qe, qs, qx. repeat split; assumption.
Defined.

(** ** How quotes compare *)

Lemma fle_mul_both a b c1 c2 :
  fle a b -> pf c1 -> pf c2 -> (fval c1 <= fval c2)%R -> fle (a * c1) (b * c2).
Proof.
  intros H H1 H2 Hc. apply fle_trans with (a * c2).
  - apply fle_mul_const; trivial. apply H.
  - now apply fle_mul_r.
Qed.

Lemma nn_base_riesgo d p :
  (0 <=? d) = true ->
  nn (calcular_tiempo_base d * riskTimeMultiplier p) /\
  nn (calcular_costo_base d peso_kg_default * riskCostMultiplier p).
Proof.
  intros Hd.
  pose proof (fle_mul_r _ _ _ (pf_riskTime p) (tiempo_base_ge2 _ Hd)) as (_ & ? & _).
  pose proof (fle_mul_r _ _ _ (pf_riskCost p) (costo_base_ge15 _ Hd)) as (_ & ? & _).
  split; trivial.
Qed.

(** X5: in one table (the same request, probability and profile, a
    distance [d >= 0]) express is never slower than estándar, which is
    never slower than económico; and económico is never dearer than
    estándar, which is never dearer than express. *)
Theorem X5_modalities_ordered :
  forall (modelo : clasificador) (datos : datos_envio) (p : float)
         (perfil : string) (pr : multiplicadores),
    predict_proba modelo datos = Ok p ->
    In (perfil, pr) PERFILES ->
    (0 <=? Distancia_KM datos) = true ->
    exists qe qs qx,
      predecir_envio (Some modelo) datos "económico" perfil = Ok qe /\
      predecir_envio (Some modelo) datos "estándar" perfil = Ok qs /\
      predecir_envio (Some modelo) datos "express" perfil = Ok qx /\
      (tiempo_horas qx <=? tiempo_horas qs) = true /\
      (tiempo_horas qs <=? tiempo_horas qe) = true /\
      (costo_usd qe <=? costo_usd qs) = true /\
      (costo_usd qs <=? costo_usd qx) = true.
Proof.
  intros modelo datos p perfil pr Hp Hpr Hd.
  rewrite (quote_formula _ _ p "económico" _ {| tiempo := 1.3; costo := 0.8 |} pr Hp
             ltac:(cbn; auto) Hpr).
  rewrite (quote_formula _ _ p "estándar" _ {| tiempo := 1.0; costo := 1.0 |} pr Hp
             ltac:(cbn; auto) Hpr).
  rewrite (quote_formula _ _ p "express" _ {| tiempo := 0.7; costo := 1.5 |} pr Hp
             ltac:(cbn; auto) Hpr).
  do 3 eexists. do 3 (split; [reflexivity|]).
  cbn [tiempo_horas costo_usd tiempo costo].
  destruct (nn_base_riesgo _ p Hd) as [Nt Nc].
  destruct (pf_PERFILES _ _ Hpr) as [Hpt Hpc].
  repeat split; apply fle_leb, fle_mul_r; trivial;
    apply fle_mul_const; trivial; try reflexivity;
    apply const_le; reflexivity.
Qed.

Lemma X5_modalities_ordered_witness :
  exists qe qs qx,
    predecir_envio (Some {| predict_proba := fun _ => Ok 0.75 |})
      {| Distancia_KM := 50; Trafico_Score := 3; Riesgo_Clima := 0;
         Ratio_Inv := 1; Waiting_Time := 10; Temperature := 25;
         Humidity := 60; Traffic_Num := 2 |} "económico" "urgente" = Ok qe /\
    predecir_envio (Some {| predict_proba := fun _ => Ok 0.75 |})
      {| Distancia_KM := 50; Trafico_Score := 3; Riesgo_Clima := 0;
         Ratio_Inv := 1; Waiting_Time := 10; Temperature := 25;
         Humidity := 60; Traffic_Num := 2 |} "estándar" "urgente" = Ok qs /\
    predecir_envio (Some {| predict_proba := fun _ => Ok 0.75 |})
      {| Distancia_KM := 50; Trafico_Score := 3; Riesgo_Clima := 0;
         Ratio_Inv := 1; Waiting_Time := 10; Temperature := 25;
         Humidity := 60; Traffic_Num := 2 |} "express" "urgente" = Ok qx /\
    (tiempo_horas qx <=? tiempo_horas qs) = true /\
    (tiempo_horas qs <=? tiempo_horas qe) = true /\
    (costo_usd qe <=? costo_usd qs) = true /\
    (costo_usd qs <=? costo_usd qx) = true.
Proof.
  apply (X5_modalities_ordered {| predict_proba := fun _ => Ok 0.75 |}
           {| Distancia_KM := 50; Trafico_Score := 3; Riesgo_Clima := 0;
              Ratio_Inv := 1; Waiting_Time := 10; Temperature := 25;
              Humidity := 60; Traffic_Num := 2 |} 0.75 "urgente"
           {| tiempo := 0.9; costo := 1.2 |}); try reflexivity.
  cbn. left. reflexivity.
Defined.

(** X6: for the same request, probability and modality, and a distance
    [d >= 0], the urgente profile is never slower than the económico
    profile, and never cheaper. *)
Theorem X6_profiles_ordered :
  forall (modelo : clasificador) (datos : datos_envio) (p : float)
         (modalidad : string) (m : multiplicadores),
    predict_proba modelo datos = Ok p ->
    In (modalidad, m) MODALIDADES ->
    (0 <=? Distancia_KM datos) = true ->
    exists qu qe,
      predecir_envio (Some modelo) datos modalidad "urgente" = Ok qu /\
      predecir_envio (Some modelo) datos modalidad "económico" = Ok qe /\
      (tiempo_horas qu <=? tiempo_horas qe) = true /\
      (costo_usd qe <=? costo_usd qu) = true.
Proof.
  intros modelo datos p modalidad m Hp Hm Hd.
  rewrite (quote_formula _ _ p _ "urgente" m {| tiempo := 0.9; costo := 1.2 |} Hp Hm
             ltac:(cbn; auto)).
  rewrite (quote_formula _ _ p _ "económico" m {| tiempo := 1.1; costo := 0.8 |} Hp Hm
             ltac:(cbn; auto)).
  do 2 eexists. do 2 (split; [reflexivity|]).
  cbn [tiempo_horas costo_usd tiempo costo].
  destruct (nn_base_riesgo _ p Hd) as [Nt Nc].
  destruct (pf_MODALIDADES _ _ Hm) as [Hmt Hmc].
  pose proof (fle_mul_r _ _ _ Hmt (fle_refl _ Nt)) as (_ & Nt' & _).
  pose proof (fle_mul_r _ _ _ Hmc (fle_refl _ Nc)) as (_ & Nc' & _).
  split; apply fle_leb, fle_mul_const; trivial; try reflexivity;
    apply const_le; reflexivity.
Qed.

Lemma X6_profiles_ordered_witness :
  exists qu qe,
    predecir_envio (Some {| predict_proba := fun _ => Ok 0.5 |})
      {| Distancia_KM := 120; Trafico_Score := 2; Riesgo_Clima := 0;
         Ratio_Inv := 1; Waiting_Time := 10; Temperature := 25;
         Humidity := 60; Traffic_Num := 1 |} "express" "urgente" = Ok qu /\
    predecir_envio (Some {| predict_proba := fun _ => Ok 0.5 |})
      {| Distancia_KM := 120; Trafico_Score := 2; Riesgo_Clima := 0;
         Ratio_Inv := 1; Waiting_Time := 10; Temperature := 25;
         Humidity := 60; Traffic_Num := 1 |} "express" "económico" = Ok qe /\
    (tiempo_horas qu <=? tiempo_horas qe) = true /\
    (costo_usd qe <=? costo_usd qu) = true.
Proof.
  apply (X6_profiles_ordered {| predict_proba := fun _ => Ok 0.5 |}
           {| Distancia_KM := 120; Trafico_Score := 2; Riesgo_Clima := 0;
              Ratio_Inv := 1; Waiting_Time := 10; Temperature := 25;
              Humidity := 60; Traffic_Num := 1 |} 0.5 "express"
           {| tiempo := 0.7; costo := 1.5 |}); try reflexivity.
  cbn. right. right. left. reflexivity.
Defined.

(** X7: for a registered modality and profile, a longer trip with no
    lower a probability is never quoted fewer hours or a lower cost:
    if [0 <= d1 <= d2] and [p1 <= p2] then the quote at [(d1, p1)] is at
    most the quote at [(d2, p2)] in both. *)
Theorem X7_monotone_in_distance :
  forall (modelo1 modelo2 : clasificador) (datos1 datos2 : datos_envio)
         (p1 p2 : float) (modalidad perfil : string) (m pr : multiplicadores),
    predict_proba modelo1 datos1 = Ok p1 ->
    predict_proba modelo2 datos2 = Ok p2 ->
    In (modalidad, m) MODALIDADES ->
    In (perfil, pr) PERFILES ->
    (0 <=? Distancia_KM datos1) = true ->
    (Distancia_KM datos1 <=? Distancia_KM datos2) = true ->
    (p1 <=? p2) = true ->
    exists q1 q2,
      predecir_envio (Some modelo1) datos1 modalidad perfil = Ok q1 /\
      predecir_envio (Some modelo2) datos2 modalidad perfil = Ok q2 /\
      (tiempo_horas q1 <=? tiempo_horas q2) = true /\
      (costo_usd q1 <=? costo_usd q2) = true.
Proof.
  intros modelo1 modelo2 datos1 datos2 p1 p2 modalidad perfil m pr
         H1 H2 Hm Hpr Hd0 Hd Hp.
  rewrite (quote_formula _ _ _ _ _ _ _ H1 Hm Hpr).
  rewrite (quote_formula _ _ _ _ _ _ _ H2 Hm Hpr).
  do 2 eexists. do 2 (split; [reflexivity|]).
  cbn [tiempo_horas costo_usd].
  pose proof (fle_of_leb _ _ Hd0 Hd) as Fd.
  destruct (pf_MODALIDADES _ _ Hm) as [Hmt Hmc].
  destruct (pf_PERFILES _ _ Hpr) as [Hpt Hpc].
  destruct (risk_mono _ _ Hp) as [Rt Rc].
  split; apply fle_leb; repeat apply fle_mul_r; trivial;
    apply fle_mul_both; trivial;
    first [apply pf_riskTime | apply pf_riskCost | idtac].
  - now apply tiempo_base_fle.
  - apply costo_base_fle; trivial. now apply fle_refl.
Qed.

Lemma X7_monotone_in_distance_witness :
  exists q1 q2,
    predecir_envio (Some {| predict_proba := fun _ => Ok 0.3 |})
      {| Distancia_KM := 50; Trafico_Score := 3; Riesgo_Clima := 0;
         Ratio_Inv := 1; Waiting_Time := 10; Temperature := 25;
         Humidity := 60; Traffic_Num := 2 |} "express" "urgente" = Ok q1 /\
    predecir_envio (Some {| predict_proba := fun _ => Ok 0.75 |})
      {| Distancia_KM := 120.5; Trafico_Score := 3; Riesgo_Clima := 0;
         Ratio_Inv := 1; Waiting_Time := 10; Temperature := 25;
         Humidity := 60; Traffic_Num := 2 |} "express" "urgente" = Ok q2 /\
    (tiempo_horas q1 <=? tiempo_horas q2) = true /\
    (costo_usd q1 <=? costo_usd q2) = true.
Proof.
  apply (X7_monotone_in_distance
           {| predict_proba := fun _ => Ok 0.3 |}
           {| predict_proba := fun _ => Ok 0.75 |}
           {| Distancia_KM := 50; Trafico_Score := 3; Riesgo_Clima := 0;
              Ratio_Inv := 1; Waiting_Time := 10; Temperature := 25;
              Humidity := 60; Traffic_Num := 2 |}
           {| Distancia_KM := 120.5; Trafico_Score := 3; Riesgo_Clima := 0;
              Ratio_Inv := 1; Waiting_Time := 10; Temperature := 25;
              Humidity := 60; Traffic_Num := 2 |} 0.3 0.75
           "express" "urgente" {| tiempo := 0.7; costo := 1.5 |}
           {| tiempo := 0.9; costo := 1.2 |}); try reflexivity.
  - cbn. right. right. left. reflexivity.
  - cbn. left. reflexivity.
Defined.

(** ** Quotes on the form's range *)

Lemma float_of_int_fle i j :
  (0 <= i <= j)%Z -> (j < 2 ^ 53)%Z -> fle (float_of_int i) (float_of_int j).
Proof.
  intros Hi Hj.
  destruct (float_of_int_vale i ltac:(lia)) as [Fi Vi].
  destruct (float_of_int_vale j ltac:(lia)) as [Fj Vj].
  repeat split; try (now apply nnfin_nonneg).
  rewrite Vi, Vj. apply IZR_le. lia.
Qed.

Lemma riskTime_bounds p :
  (fval 1.0 <= fval (riskTimeMultiplier p) <= fval 1.5)%R.
Proof.
  unfold riskTimeMultiplier.
  destruct (p >? 0.6); [|destruct (_ && _)]; split; apply const_le; reflexivity.
Qed.

Lemma riskCost_bounds p :
  (fval 1.0 <= fval (riskCostMultiplier p) <= fval 1.30)%R.
Proof.
  unfold riskCostMultiplier.
  destruct (p >? 0.6); [|destruct (_ && _)]; split; apply const_le; reflexivity.
Qed.

Lemma MODALIDADES_bounds k m :
  In (k, m) MODALIDADES ->
  (fval 0.7 <= fval (tiempo m) <= fval 1.3)%R /\
  (fval 0.8 <= fval (costo m) <= fval 1.5)%R.
Proof.
  intros [H|[H|[H|[]]]]; injection H as <- <-; cbn [tiempo costo];
    repeat split; apply const_le; reflexivity.
Qed.

Lemma PERFILES_bounds k m :
  In (k, m) PERFILES ->
  (fval 0.9 <= fval (tiempo m) <= fval 1.1)%R /\
  (fval 0.8 <= fval (costo m) <= fval 1.2)%R.
Proof.
  intros [H|[H|[]]]; injection H as <- <-; cbn [tiempo costo];
    repeat split; apply const_le; reflexivity.
Qed.

(** X8: for every input the form allows (a whole number of 1..2000 km),
    every probability and every registered modality and profile, the
    quote is finite and bounded: between 1.27 and 90.1 hours, and
    between 9.9 and 2375.2 in cost. *)
Theorem X8_form_quote_bounds :
  forall (modelo : clasificador) (f : formulario) (p : float)
         (modalidad : string) (m pr : multiplicadores),
    predict_proba modelo (construir_datos f) = Ok p ->
    In (modalidad, m) MODALIDADES ->
    In (perfil f, pr) PERFILES ->
    (1 <= distancia_km f <= 2000)%Z ->
    exists q,
      predecir_envio (Some modelo) (construir_datos f) modalidad (perfil f) = Ok q /\
      (1.27 <=? tiempo_horas q) = true /\ (tiempo_horas q <=? 90.1) = true /\
      (9.9 <=? costo_usd q) = true /\ (costo_usd q <=? 2375.2) = true.
Proof.
  intros modelo f p modalidad m pr Hp Hm Hpr Hd.
  rewrite (quote_formula _ _ _ _ _ _ _ Hp Hm Hpr).
  eexists. split; [reflexivity|].
  cbn [tiempo_horas costo_usd construir_datos Distancia_KM].
  pose proof (float_of_int_fle 1 (distancia_km f) ltac:(lia) ltac:(lia)) as Flo.
  pose proof (float_of_int_fle (distancia_km f) 2000 ltac:(lia) ltac:(lia)) as Fhi.
  destruct (pf_MODALIDADES _ _ Hm) as [Hmt Hmc].
  destruct (pf_PERFILES _ _ Hpr) as [Hpt Hpc].
  destruct (MODALIDADES_bounds _ _ Hm) as [[Mt1 Mt2] [Mc1 Mc2]].
  destruct (PERFILES_bounds _ _ Hpr) as [[Pt1 Pt2] [Pc1 Pc2]].
  destruct (riskTime_bounds p) as [Rt1 Rt2]. destruct (riskCost_bounds p) as [Rc1 Rc2].
  pose proof (pf_riskTime p) as Prt. pose proof (pf_riskCost p) as Prc.
  assert (Tlo : fle (calcular_tiempo_base (float_of_int 1) * 1.0 * 0.7 * 0.9)
                    (calcular_tiempo_base (float_of_int (distancia_km f))
                     * riskTimeMultiplier p * tiempo m * tiempo pr)).
  { repeat apply fle_mul_both; trivial; try reflexivity. now apply tiempo_base_fle. }
  assert (Thi : fle (calcular_tiempo_base (float_of_int (distancia_km f))
                     * riskTimeMultiplier p * tiempo m * tiempo pr)
                    (calcular_tiempo_base (float_of_int 2000) * 1.5 * 1.3 * 1.1)).
  { repeat apply fle_mul_both; trivial; try reflexivity. now apply tiempo_base_fle. }
  assert (Clo : fle (calcular_costo_base (float_of_int 1) peso_kg_default * 1.0 * 0.8 * 0.8)
                    (calcular_costo_base (float_of_int (distancia_km f)) peso_kg_default
                     * riskCostMultiplier p * costo m * costo pr)).
  { repeat apply fle_mul_both; trivial; try reflexivity.
    apply costo_base_fle; trivial. now apply fle_refl. }
  assert (Chi : fle (calcular_costo_base (float_of_int (distancia_km f)) peso_kg_default
                     * riskCostMultiplier p * costo m * costo pr)
                    (calcular_costo_base (float_of_int 2000) peso_kg_default
                     * 1.30 * 1.5 * 1.2)).
  { repeat apply fle_mul_both; trivial; try reflexivity.
    apply costo_base_fle; trivial. now apply fle_refl. }
  repeat split; apply fle_leb.
  - eapply fle_trans; [|exact Tlo]. apply leb_fle; reflexivity.
  - eapply fle_trans; [exact Thi|]. apply leb_fle; [apply Thi|reflexivity].
  - eapply fle_trans; [|exact Clo]. apply leb_fle; reflexivity.
  - eapply fle_trans; [exact Chi|]. apply leb_fle; [apply Chi|reflexivity].
Qed.

Lemma X8_form_quote_bounds_witness :
  exists q,
    predecir_envio (Some {| predict_proba := fun _ => Ok 0.75 |})
      (construir_datos
         {| distancia_km := 50; waiting := 10; trafico := Heavy; temp := 25;
            hum := 60; inv_ratio := 1; perfil := "urgente"; calcular := true |})
      "express" "urgente" = Ok q /\
    (1.27 <=? tiempo_horas q) = true /\ (tiempo_horas q <=? 90.1) = true /\
    (9.9 <=? costo_usd q) = true /\ (costo_usd q <=? 2375.2) = true.
Proof.
  apply (X8_form_quote_bounds {| predict_proba := fun _ => Ok 0.75 |}
           {| distancia_km := 50; waiting := 10; trafico := Heavy; temp := 25;
              hum := 60; inv_ratio := 1; perfil := "urgente"; calcular := true |}
           0.75 "express" {| tiempo := 0.7; costo := 1.5 |}
           {| tiempo := 0.9; costo := 1.2 |}); try reflexivity.
  - cbn. right. right. left. reflexivity.
  - cbn. left. reflexivity.
  - cbn. lia.
Defined.

(** X9: the estándar modality changes nothing: its quote is the
    risk-adjusted base time and cost times the profile's multipliers
    alone. *)
Theorem X9_standard_modality_neutral :
  forall (modelo : clasificador) (datos : datos_envio) (p : float)
         (perfil : string) (pr : multiplicadores),
    predict_proba modelo datos = Ok p ->
    In (perfil, pr) PERFILES ->
    exists q,
      predecir_envio (Some modelo) datos "estándar" perfil = Ok q /\
      tiempo_horas q =
        fst (fst (ajuste_riesgo p (calcular_tiempo_base (Distancia_KM datos))
                    (calcular_costo_base (Distancia_KM datos) 10.0)))
        * tiempo pr /\
      costo_usd q =
        snd (fst (ajuste_riesgo p (calcular_tiempo_base (Distancia_KM datos))
                    (calcular_costo_base (Distancia_KM datos) 10.0)))
        * costo pr.
Proof.
  intros modelo datos p perfil pr Hp Hpr.
  apply getitem_PERFILES in Hpr.
  rewrite (predecir_envio_ok _ _ p "estándar" _ {| tiempo := 1.0; costo := 1.0 |} pr
             Hp eq_refl Hpr).
  cbv zeta. cbn [tiempo costo]. change 1.0 with 1. rewrite !mul_one.
  eexists. repeat split.
Qed.

Lemma X9_standard_modality_neutral_witness :
  exists q,
    predecir_envio (Some {| predict_proba := fun _ => Ok 0.3 |})
      {| Distancia_KM := 0; Trafico_Score := 1; Riesgo_Clima := 0;
         Ratio_Inv := 1; Waiting_Time := 10; Temperature := 25;
         Humidity := 60; Traffic_Num := 0 |} "estándar" "económico" = Ok q /\
    tiempo_horas q = 2.0 * 1.1 /\ costo_usd q = 15.0 * 0.8.
Proof.
  apply (X9_standard_modality_neutral {| predict_proba := fun _ => Ok 0.3 |}
           {| Distancia_KM := 0; Trafico_Score := 1; Riesgo_Clima := 0;
              Ratio_Inv := 1; Waiting_Time := 10; Temperature := 25;
              Humidity := 60; Traffic_Num := 0 |} 0.3 "económico"
           {| tiempo := 1.1; costo := 0.8 |}); try reflexivity.
  cbn. right. left. reflexivity.
Defined.

(** ** The training script's features and the calculator's *)

(** The [n] whole numbers from [lo] on. *)
Definition rango (lo : Z) (n : nat) : list Z :=
  map (fun i => (lo + Z.of_nat i)%Z) (seq 0 n).

Lemma forallb_rango (P : Z -> bool) lo n :
  forallb P (rango lo n) = true ->
  forall z, (lo <= z < lo + Z.of_nat n)%Z -> P z = true.
Proof.
  intros H z Hz. rewrite forallb_forall in H. apply H.
  unfold rango. apply in_map_iff. exists (Z.to_nat (z - lo)). split.
  - cbv beta. lia.
  - apply in_seq. lia.
Qed.

Lemma temperatura_gtb t :
  (-20 <= t <= 55)%Z -> (float_of_int t >? 30) = (t >? 30)%Z.
Proof.
  intros Ht.
  apply Bool.eqb_prop.
  apply (forallb_rango (fun z => Bool.eqb (float_of_int z >? 30) (z >? 30)%Z) (-20) 76).
  - vm_compute. reflexivity.
  - lia.
Qed.

Lemma humedad_gtb h :
  (0 <= h <= 100)%Z -> (float_of_int h >? 80) = (h >? 80)%Z.
Proof.
  intros Hh.
  apply Bool.eqb_prop.
  apply (forallb_rango (fun z => Bool.eqb (float_of_int z >? 80) (z >? 80)%Z) 0 101).
  - vm_compute. reflexivity.
  - lia.
Qed.

(** X10: on every reading the form allows (whole degrees -20..55, whole
    percent 0..100) the weather flag the calculator feeds the classifier
    is the flag the training script computed for the same reading, and
    it is 1 exactly when the weather alert is a warning. *)
Theorem X10_weather_flag_consistent :
  forall t h : Z,
    (-20 <= t <= 55)%Z -> (0 <= h <= 100)%Z ->
    fila_Riesgo_Clima (float_of_int t) (float_of_int h) = riesgo_clima t h /\
    (riesgo_clima t h = 1%Z <-> estado (alerta_clima t h) = Some warning) /\
    (riesgo_clima t h = 0%Z <-> estado (alerta_clima t h) = Some ok) /\
    (forall f : formulario,
       Riesgo_Clima (construir_datos f) = riesgo_clima (temp f) (hum f)).
Proof.
  intros t h Ht Hh. split; [|split; [|split]].
  - unfold fila_Riesgo_Clima, riesgo_clima.
    rewrite (temperatura_gtb _ Ht), (humedad_gtb _ Hh).
    destruct (t >? 30)%Z, (h >? 80)%Z; reflexivity.
  - unfold riesgo_clima, alerta_clima.
    destruct ((t >? 30) || (h >? 80))%Z; cbn [estado]; split; intros; congruence.
  - unfold riesgo_clima, alerta_clima.
    destruct ((t >? 30) || (h >? 80))%Z; cbn [estado]; split; intros; congruence.
  - reflexivity.
Qed.

Lemma X10_weather_flag_consistent_witness :
  fila_Riesgo_Clima (float_of_int 31) (float_of_int 60) = riesgo_clima 31 60 /\
  fila_Riesgo_Clima (float_of_int (-5)) (float_of_int 80) = riesgo_clima (-5) 80.
Proof.
  split.
  - refine (proj1 (X10_weather_flag_consistent 31 60 _ _)); split; discriminate.
  - refine (proj1 (X10_weather_flag_consistent (-5) 80 _ _)); split; discriminate.
Defined.

Lemma etiqueta_cases s :
  (exists t, s = etiqueta t) \/ (forall t, s <> etiqueta t).
Proof.
  destruct (string_dec s "Clear") as [->|H1]; [left; now exists Clear|].
  destruct (string_dec s "Detour") as [->|H2]; [left; now exists Detour|].
  destruct (string_dec s "Heavy") as [->|H3]; [left; now exists Heavy|].
  right. intros [] ->; contradiction.
Qed.

Lemma serie_map_absent {V : Type} (d : dict V) k :
  ~ In k (keys d) -> serie_map d k = None.
Proof. intros H. unfold serie_map. now rewrite (getitem_absent _ _ H). Qed.

(** X11: the training script encodes traffic as the calculator does: on
    each of the three labels its two columns are the calculator's
    [trafico_score] and [trafico_num]; on any other label both are NaN;
    whenever both are numbers, [Traffic_Num = Trafico_Score - 1]; and
    the script's column list is the calculator's [FEATURES], in the same
    order. *)
Theorem X11_training_encodings :
  (forall t, fila_Trafico_Score (etiqueta t) = Some (trafico_score t) /\
             fila_Traffic_Num (etiqueta t) = Some (trafico_num t)) /\
  (forall s, (forall t, s <> etiqueta t) ->
             fila_Trafico_Score s = None /\ fila_Traffic_Num s = None) /\
  (forall s a b, fila_Trafico_Score s = Some a -> fila_Traffic_Num s = Some b ->
                 b = (a - 1)%Z) /\
  (forall s, fila_Trafico_Score s = None <-> fila_Traffic_Num s = None) /\
  variables = FEATURES.
Proof.
  assert (Hout : forall s, (forall t, s <> etiqueta t) ->
             fila_Trafico_Score s = None /\ fila_Traffic_Num s = None).
  { intros s Hs. split; apply serie_map_absent; cbn;
      intros [H|[H|[H|[]]]]; subst s;
      [apply (Hs Clear)|apply (Hs Detour)|apply (Hs Heavy)
      |apply (Hs Clear)|apply (Hs Detour)|apply (Hs Heavy)]; reflexivity. }
  split; [intros t; destruct t; split; reflexivity|].
  split; [exact Hout|].
  split; [|split; [|reflexivity]].
  - intros s a b Ha Hb. destruct (etiqueta_cases s) as [[t ->]|Hs].
    + destruct t; cbn in Ha, Hb; injection Ha as <-; injection Hb as <-; reflexivity.
    + destruct (Hout s Hs) as [E _]. congruence.
  - intros s. destruct (etiqueta_cases s) as [[t ->]|Hs].
    + destruct t; split; intros H; discriminate H.
    + destruct (Hout s Hs) as [E1 E2]. split; intros _; assumption.
Qed.

Lemma X11_training_encodings_witness :
  fila_Trafico_Score "Jam" = None /\ fila_Traffic_Num "Jam" = None.
Proof.
  apply (proj1 (proj2 X11_training_encodings)).
  intros [] H; discriminate H.
Defined.

Lemma SFdiv_one x :
  valid_binary x = true -> SFdiv prec emax x one64 = x.
Proof.
  destruct x as [s|s| |s m e]; cbn [SFdiv one64 valid_binary];
    rewrite ?xorb_false_r; trivial.
  intros Hb.
  pose proof (SFdiv_rounds m e 4503599627370496 (-52)) as R.
  cbn [SFdiv xorb] in R.
  destruct (SFdiv_core_binary prec emax (Zpos m) e (Zpos 4503599627370496) (-52))
    as [[mz ez] lz].
  rewrite binary_round_aux_sign.
  pose proof (rounds_self m e Hb) as R'.
  replace (IZR (Zpos m) * pow2 e / (IZR (Zpos 4503599627370496) * pow2 (-52)))%R
    with (IZR (Zpos m) * pow2 e)%R in R.
  - pose proof (rounds_fun _ _ _ R R') as Hv. cbn [xval] in Hv.
    rewrite (nonneg_xval_finite _ m e (rounds_nonneg _ _ R) Hb Hv). reflexivity.
  - change (IZR (Zpos 4503599627370496)) with (IZR (2 ^ 52)).
    rewrite <- (pow2_IZR 52), <- pow2_add by lia.
    change (52 + -52)%Z with 0%Z. rewrite pow2_0. field.
Qed.

Lemma div_one x : x / 1 = x.
Proof.
  apply Prim2SF_inj. rewrite div_spec.
  change (Prim2SF 1) with one64. apply SFdiv_one, Prim2SF_valid.
Qed.

(** X12: the inventory ratio of the training script never divides by
    zero: where the demand forecast is zero (of either sign) the ratio is
    the inventory level itself, and elsewhere it is the plain quotient. *)
Theorem X12_ratio_inv :
  forall inventory_level demand_forecast : float,
    (replace_0_1 demand_forecast =? 0) = false /\
    ((demand_forecast =? 0) = true ->
       fila_Ratio_Inv inventory_level demand_forecast = inventory_level) /\
    ((demand_forecast =? 0) = false ->
       fila_Ratio_Inv inventory_level demand_forecast
       = inventory_level / demand_forecast).
Proof.
  intros inv dem. unfold fila_Ratio_Inv, replace_0_1.
  destruct (dem =? 0) eqn:E.
  - repeat split; trivial; try discriminate. intros _. apply div_one.
  - repeat split; trivial; discriminate.
Qed.

Lemma X12_ratio_inv_witness :
  fila_Ratio_Inv 120.5 0 = 120.5 /\ fila_Ratio_Inv 120.5 (-0) = 120.5 /\
  fila_Ratio_Inv 120 80 = 120 / 80.
Proof.
  split; [|split].
  - apply (proj1 (proj2 (X12_ratio_inv 120.5 0))). reflexivity.
  - apply (proj1 (proj2 (X12_ratio_inv 120.5 (-0)))). reflexivity.
  - apply (proj2 (proj2 (X12_ratio_inv 120 80))). reflexivity.
Defined.

(** ** Exact base estimates *)

Lemma vale_div x c a b k e :
  vale x a -> vale c b -> pf c -> (a / b = IZR k * pow2 e)%R ->
  (0 <= k < 2 ^ 53)%Z -> (-1074 <= e)%Z -> (IZR k * pow2 e < pow2 1024)%R ->
  vale (x / c) (a / b).
Proof.
  intros [Fx <-] [_ <-] Hc Hab Hk He Hlt. rewrite Hab.
  apply vale_rounds; trivial. rewrite <- Hab, div_spec.
  now apply SFdiv_nnfin_rounds.
Qed.

(** Two finite floats with the same positive value are the same float. *)
Lemma vale_inj x y v : vale x v -> vale y v -> (0 < v)%R -> x = y.
Proof.
  intros [Fx Vx] [Fy Vy] Hv. apply Prim2SF_inj. unfold fval in *.
  destruct (Prim2SF y) as [|[]| |[] my ey]; cbn [nnfin] in Fy; try discriminate.
  - cbn [xval] in Vy. lra.
  - apply nonneg_xval_finite; trivial; [now apply nnfin_nonneg|].
    cbn [xval] in Vy. now rewrite Vx, <- Vy.
Qed.

Lemma vale_fifty : vale 50.0 (IZR 50 * pow2 0).
Proof.
  split; [reflexivity|]. unfold fval.
  change (Prim2SF 50.0) with (S754_finite false 7036874417766400 (-47)).
  rewrite (xval_const _ _ 50 47) by (reflexivity || lia). reflexivity.
Qed.

Lemma vale_two : vale 2.0 (IZR 2 * pow2 0).
Proof.
  split; [reflexivity|]. unfold fval.
  change (Prim2SF 2.0) with (S754_finite false 4503599627370496 (-51)).
  rewrite (xval_const _ _ 2 51) by (reflexivity || lia). reflexivity.
Qed.

(** X13: the base estimates carry no rounding error on round inputs: at a
    whole multiple [50 k] of fifty kilometres the base time is exactly
    [k + 2] hours, and at an even whole distance [2 k] and a whole
    weight [j] the base cost is exactly [5 + k + j]. *)
Theorem X13_exact_base_estimates :
  (forall k : Z, (0 <= k <= 2 ^ 40)%Z ->
     calcular_tiempo_base (float_of_int (50 * k)) = float_of_int (k + 2)) /\
  (forall k j : Z, (0 <= k <= 2 ^ 40)%Z -> (0 <= j <= 2 ^ 40)%Z ->
     calcular_costo_base (float_of_int (2 * k)) (float_of_int j)
     = float_of_int (5 + k + j)).
Proof.
  split.
  - intros k Hk. apply (vale_inj _ _ (IZR (k + 2))).
    + unfold calcular_tiempo_base.
      pose proof (float_of_int_vale (50 * k) ltac:(lia)) as V.
      assert (Vd : vale (float_of_int (50 * k) / 50.0)
                     (IZR (50 * k) / (IZR 50 * pow2 0))).
      { apply (vale_div _ _ _ _ k 0); trivial; try lia.
        - apply vale_fifty.
        - reflexivity.
        - rewrite mult_IZR, pow2_0. field.
        - apply small_lt_overflow; lia. }
      replace (IZR (k + 2)) with (IZR (50 * k) / (IZR 50 * pow2 0) + IZR 2 * pow2 0)%R
        by (rewrite plus_IZR, mult_IZR, pow2_0; field).
      apply (vale_add _ _ _ _ (k + 2) 0); trivial; try lia.
      * apply vale_two.
      * rewrite plus_IZR, mult_IZR, pow2_0. field.
      * apply small_lt_overflow; lia.
    + apply float_of_int_vale. lia.
    + apply IZR_lt. lia.
  - intros k j Hk Hj. apply (vale_inj _ _ (IZR (5 + k + j))).
    + replace (IZR (5 + k + j)) with (5 + IZR (2 * k) / 2 + IZR j)%R
        by (rewrite !plus_IZR, mult_IZR; field).
      apply costo_base_entero; lia.
    + apply float_of_int_vale. lia.
    + apply IZR_lt. lia.
Qed.

Lemma X13_exact_base_estimates_witness :
  calcular_tiempo_base (float_of_int (50 * 1)) = float_of_int (1 + 2) /\
  calcular_costo_base (float_of_int (2 * 25)) (float_of_int 10)
  = float_of_int (5 + 25 + 10).
Proof.
  split.
  - refine (proj1 X13_exact_base_estimates 1%Z _). split; discriminate.
  - refine (proj2 X13_exact_base_estimates 25%Z 10%Z _ _); split; discriminate.
Defined.
